(** * sali-bot: event configuration, text formatters and the drift guard

    A shallow embedding of the TypeScript/JavaScript sources

      - [src/config/superbowl.ts]        (the event configuration)
      - [src/utils/normalizeTeam.ts]     (name normalisation)
      - [src/utils/formatMatchup.ts], [src/utils/formatSuperbowl.ts]
      - [scripts/guard-superbowl-strings.js] and its shell sibling

    JavaScript strings are sequences of UTF-16 code units.  They are
    modelled by [string], one [ascii] per code unit, so the development
    covers the strings whose code units are below 256 (ASCII and the
    Latin-1 block).  On that range [String.prototype.trim], [toLowerCase]
    and the regular-expression classes [\s], [\w], [\b] are modelled
    exactly as ECMAScript defines them.  The one glyph outside that
    range, the mark that opens each banner of the guards, is kept as the
    bytes it has in the source files. *)

From Stdlib Require Import Bool Arith Lia List ZArith.
From Stdlib Require Import Strings.Ascii Strings.String Numbers.DecimalString.
Import ListNotations.
Open Scope string_scope.

(** ** JavaScript string primitives *)

Module JS.

(** ECMAScript [WhiteSpace] and [LineTerminator] code units below 256:
    TAB, LF, VT, FF, CR, SP and NBSP.  This is the set removed by
    [trim] and matched by [\s]. *)
Definition isWhiteSpace (c : ascii) : bool :=
  let n := nat_of_ascii c in
  (((9 <=? n) && (n <=? 13)) || (n =? 32) || (n =? 160))%nat.

(** [\w] without the [u] and [i] flags: [A-Za-z0-9_]. *)
Definition isWordChar (c : ascii) : bool :=
  let n := nat_of_ascii c in
  (((65 <=? n) && (n <=? 90)) || ((97 <=? n) && (n <=? 122))
   || ((48 <=? n) && (n <=? 57)) || (n =? 95))%nat.

(** Lower-case mapping of one code unit: [A-Z] and the Latin-1 capitals
    U+00C0..U+00DE (U+00D7, the multiplication sign, apart). *)
Definition lowerUnit (c : ascii) : ascii :=
  let n := nat_of_ascii c in
  if (((65 <=? n) && (n <=? 90))
      || ((192 <=? n) && (n <=? 222) && negb (n =? 215)))%nat
  then ascii_of_nat (n + 32) else c.

Fixpoint toLowerCase (s : string) : string :=
  match s with
  | EmptyString => EmptyString
  | String c s' => String (lowerUnit c) (toLowerCase s')
  end.

Fixpoint trimStart (s : string) : string :=
  match s with
  | EmptyString => EmptyString
  | String c s' => if isWhiteSpace c then trimStart s' else s
  end.

Definition isEmpty (s : string) : bool :=
  match s with EmptyString => true | String _ _ => false end.

Fixpoint trimEnd (s : string) : string :=
  match s with
  | EmptyString => EmptyString
  | String c s' =>
      let r := trimEnd s' in
      if isWhiteSpace c && isEmpty r then EmptyString else String c r
  end.

Definition trim (s : string) : string := trimEnd (trimStart s).

(** [s.replace(/\s+/g, " ")]: every maximal run of white space becomes
    one space.  [inRun] tells that the previous unit belonged to a run
    whose replacement was emitted already. *)
Fixpoint replaceWsRuns (inRun : bool) (s : string) : string :=
  match s with
  | EmptyString => EmptyString
  | String c s' =>
      if isWhiteSpace c
      then if inRun then replaceWsRuns true s'
           else String " " (replaceWsRuns true s')
      else String c (replaceWsRuns false s')
  end.

(** [s.startsWith(p)] *)
Definition startsWith (s p : string) : bool := String.prefix p s.

(** [s.replace(/\\/g, "/")] *)
Fixpoint backslashesToSlashes (s : string) : string :=
  match s with
  | EmptyString => EmptyString
  | String c s' =>
      String (if (c =? "\")%char then "/"%char else c)
             (backslashesToSlashes s')
  end.

Definition CR : ascii := ascii_of_nat 13.
Definition LF : ascii := ascii_of_nat 10.

(** [s.replace(/\r\n/g, "\n")] *)
Fixpoint replaceCRLF (s : string) : string :=
  match s with
  | EmptyString => EmptyString
  | String c t =>
      match t with
      | String d s' =>
          if ((c =? CR) && (d =? LF))%char
          then String LF (replaceCRLF s')
          else String c (replaceCRLF t)
      | EmptyString => String c EmptyString
      end
  end.

(** [s.split("\n")]: never empty, the empty string gives one empty
    line. *)
Fixpoint splitLF (s : string) : list string :=
  match s with
  | EmptyString => [EmptyString]
  | String c s' =>
      let r := splitLF s' in
      if (c =? LF)%char then EmptyString :: r
      else match r with
           | h :: t => String c h :: t
           | [] => [String c EmptyString]
           end
  end.

(** Template-literal rendering of a non-negative integer. *)
Definition numberToString (n : nat) : string :=
  NilEmpty.string_of_uint (Nat.to_uint n).

End JS.

(** ** src/utils/normalizeTeam.ts *)

Definition normalizeTeamName (name : string) : string :=
  JS.trim (JS.replaceWsRuns false name).

Definition sameTeamName (a b : string) : bool :=
  JS.toLowerCase (normalizeTeamName a) =? JS.toLowerCase (normalizeTeamName b).

(** ** src/config/superbowl.ts *)

Inductive Conference := AFC | NFC.

Record Team := {
  name : string;
  city : string;
  abbreviation : string;
  conference : option Conference
}.

Record Teams := { home : Team; away : Team }.

Record Event := { label : string; roman : string; teams : Teams }.

Definition SUPERBOWL : Event :=
  {| label := "Super Bowl";
     roman := "XLIX";
     teams :=
       {| home := {| name := "New England Patriots";
                     city := "New England";
                     abbreviation := "NE";
                     conference := Some AFC |};
          away := {| name := "Seattle Seahawks";
                     city := "Seattle";
                     abbreviation := "SEA";
                     conference := Some NFC |} |} |}.

Definition SUPERBOWL_TEAM_NAMES : list string :=
  [ name (home (teams SUPERBOWL)); name (away (teams SUPERBOWL)) ].

Definition isSuperbowlTeamName (teamName : string) : bool :=
  let t := JS.toLowerCase (JS.trim teamName) in
  existsb (fun n => JS.toLowerCase n =? t) SUPERBOWL_TEAM_NAMES.

(** ** src/utils/formatMatchup.ts *)

(** Both fields are optional; [None] is JavaScript's [undefined], for
    which the destructuring defaults apply. *)
Record Options := {
  useAbbreviations : option bool;
  separator : option string
}.

Definition noOptions : Options :=
  {| useAbbreviations := None; separator := None |}.

Definition orDefault {A} (d : A) (o : option A) : A :=
  match o with Some v => v | None => d end.

(** The parameter itself defaults to [{}] when the call passes nothing. *)
Definition formatSuperbowlMatchup (opts : option Options) : string :=
  let opts := orDefault noOptions opts in
  let useAbbr := orDefault false (useAbbreviations opts) in
  let sep := orDefault " vs " (separator opts) in
  let left :=
    if useAbbr then abbreviation (home (teams SUPERBOWL))
    else name (home (teams SUPERBOWL)) in
  let right :=
    if useAbbr then abbreviation (away (teams SUPERBOWL))
    else name (away (teams SUPERBOWL)) in
  left ++ sep ++ right.

(** ** src/utils/formatSuperbowl.ts *)

Definition formatSuperbowlEventLabel : string :=
  label SUPERBOWL ++ " " ++ roman SUPERBOWL.

Definition formatSuperbowlTeamsLine : string :=
  name (away (teams SUPERBOWL)) ++ " vs " ++ name (home (teams SUPERBOWL)).

(** ** Regular expressions

    The fragment of the pattern language the denylist uses: literals,
    the assertion [\b], concatenation and alternation.  [matchAt r s i]
    lists the positions at which a match of [r] starting at [i] can end;
    [test] is [RegExp.prototype.test] for a pattern without the [g] and
    [y] flags: a match may start at any position.  The engine is
    parameterised by its word class, which is what [\b] looks at. *)

Module RegExp.

Inductive regex :=
| Lit (s : string)
| WordBoundary
| Seq (r1 r2 : regex)
| Alt (r1 r2 : regex).

Section Engine.

Variable isWord : ascii -> bool.

Definition wordAt (s : string) (i : nat) : bool :=
  match String.get i s with
  | Some c => isWord c
  | None => false
  end.

Definition wordBefore (s : string) (i : nat) : bool :=
  match i with
  | O => false
  | S j => wordAt s j
  end.

Definition atBoundary (s : string) (i : nat) : bool :=
  xorb (wordBefore s i) (wordAt s i).

Definition litAt (l s : string) (i : nat) : bool :=
  String.substring i (String.length l) s =? l.

Fixpoint matchAt (r : regex) (s : string) (i : nat) : list nat :=
  match r with
  | Lit l => if litAt l s i then [i + String.length l] else []
  | WordBoundary => if atBoundary s i then [i] else []
  | Seq r1 r2 => flat_map (matchAt r2 s) (matchAt r1 s i)
  | Alt r1 r2 => (matchAt r1 s i ++ matchAt r2 s i)%list
  end.

Definition matchesAt (r : regex) (s : string) (i : nat) : bool :=
  match matchAt r s i with
  | [] => false
  | _ :: _ => true
  end.

Definition test (r : regex) (s : string) : bool :=
  existsb (matchesAt r s) (seq 0 (S (String.length s))).

End Engine.

End RegExp.

(** ** Node's [path] module (POSIX flavour) *)

Module Path.

(** [path.join(dir, name)] for a normalised [dir] and a plain entry
    name.  Paths are kept relative to [ROOT], the empty string being
    [ROOT] itself, so that the joined path is also what
    [path.relative(ROOT, full)] returns. *)
Definition join (dir name : string) : string :=
  if JS.isEmpty dir then name else dir ++ "/" ++ name.

(** The loop state of [posix.extname]; [None] stands for [-1]. *)
Record extState := {
  startDot : option nat;
  startPart : nat;
  endIx : option nat;
  matchedSlash : bool;
  preDotState : Z;
  stopped : bool
}.

Definition extInit : extState :=
  {| startDot := None; startPart := 0; endIx := None;
     matchedSlash := true; preDotState := 0%Z; stopped := false |}.

(** One iteration of the loop, at index [i] holding [code]. *)
Definition extStep (st : extState) (ic : nat * ascii) : extState :=
  let (i, code) := ic in
  if stopped st then st
  else if (code =? "/")%char then
    if negb (matchedSlash st)
    then {| startDot := startDot st; startPart := i + 1;
            endIx := endIx st; matchedSlash := matchedSlash st;
            preDotState := preDotState st; stopped := true |}
    else st
  else
    let st1 :=
      match endIx st with
      | None => {| startDot := startDot st; startPart := startPart st;
                   endIx := Some (i + 1); matchedSlash := false;
                   preDotState := preDotState st; stopped := false |}
      | Some _ => st
      end in
    if (code =? ".")%char then
      match startDot st1 with
      | None => {| startDot := Some i; startPart := startPart st1;
                   endIx := endIx st1; matchedSlash := matchedSlash st1;
                   preDotState := preDotState st1; stopped := false |}
      | Some _ =>
          if negb (preDotState st1 =? 1)%Z
          then {| startDot := startDot st1; startPart := startPart st1;
                  endIx := endIx st1; matchedSlash := matchedSlash st1;
                  preDotState := 1%Z; stopped := false |}
          else st1
      end
    else
      match startDot st1 with
      | Some _ => {| startDot := startDot st1; startPart := startPart st1;
                     endIx := endIx st1; matchedSlash := matchedSlash st1;
                     preDotState := (-1)%Z; stopped := false |}
      | None => st1
      end.

(** [path.extname(p)]: the loop runs from the last index down to 0. *)
Definition extname (p : string) : string :=
  let units := list_ascii_of_string p in
  let indexed := combine (seq 0 (List.length units)) units in
  let st := fold_left extStep (rev indexed) extInit in
  match startDot st, endIx st with
  | Some sd, Some e =>
      if (preDotState st =? 0)%Z
         || ((preDotState st =? 1)%Z && (sd =? e - 1)%nat
             && (sd =? startPart st + 1)%nat)
      then EmptyString
      else String.substring sd (e - sd) p
  | _, _ => EmptyString
  end.

End Path.

(** ** The file system a guard run observes

    [readdirSync(dir, {withFileTypes: true})] yields directory entries: a
    name together with the kind of the entry.  A directory whose listing
    fails and a file whose read fails carry [None]; [Other] is an entry
    that is neither a directory nor a regular file (a symbolic link, a
    socket, a device). *)

#[local] Unset Elimination Schemes.

Inductive node :=
| File (content : option string)
| Dir (entries : option (list (string * node)))
| Other.

#[local] Set Elimination Schemes.

(** Structural induction on trees, the entries of a directory being
    covered by [Forall]. *)
Section NodeInduction.

Variable P : node -> Prop.
Hypothesis onFile : forall content, P (File content).
Hypothesis onOther : P Other.
Hypothesis onUnlistable : P (Dir None).
Hypothesis onDir :
  forall entries, Forall (fun ne => P (snd ne)) entries ->
                  P (Dir (Some entries)).

Fixpoint node_ind' (n : node) : P n :=
  match n with
  | File content => onFile content
  | Other => onOther
  | Dir None => onUnlistable
  | Dir (Some entries) =>
      onDir _
        ((fix all (es : list (string * node))
            : Forall (fun ne => P (snd ne)) es :=
            match es with
            | [] => Forall_nil _
            | ne :: rest => Forall_cons ne (node_ind' (snd ne)) (all rest)
            end) entries)
  end.

End NodeInduction.

Inductive fsError :=
| EACCES (path : string)
| ENOTDIR (path : string).

(** ** scripts/guard-superbowl-strings.js *)

Module Guard.

Import RegExp.

(** [/Kansas City Chiefs|San Francisco 49ers|\bChiefs\b|\b49ers\b|superbowlTeams/] *)
Definition BAD_PATTERN : regex :=
  Alt (Lit "Kansas City Chiefs")
 (Alt (Lit "San Francisco 49ers")
 (Alt (Seq WordBoundary (Seq (Lit "Chiefs") WordBoundary))
 (Alt (Seq WordBoundary (Seq (Lit "49ers") WordBoundary))
      (Lit "superbowlTeams")))).

Definition IGNORE : list string :=
  [ "node_modules"; ".git"; "__pycache__"; "kalshi_signals.db";
    "watchlist.json"; "package-lock.json" ].

Definition IGNORE_has (entryName : string) : bool :=
  existsb (String.eqb entryName) IGNORE.

Definition TEXT_EXTENSIONS : list string :=
  [ ".ts"; ".tsx"; ".js"; ".jsx"; ".json"; ".md"; ".py"; ".sh";
    ".env.example" ].

(** The mutable state of a run: the [hits] array, and the log of the
    files handed to [readFileSync]. *)
Record state := { hits : list string; opened : list string }.

Definition initial : state := {| hits := []; opened := [] |}.

(** Computations over the state that may throw. *)
Definition M (A : Type) : Type := state -> fsError + (A * state).

Definition ret {A} (a : A) : M A := fun st => inr (a, st).

Definition throw {A} (e : fsError) : M A := fun _ => inl e.

Definition bind {A B} (m : M A) (k : A -> M B) : M B :=
  fun st =>
    match m st with
    | inl e => inl e
    | inr (a, st') => k a st'
    end.

Notation "m ;; k" := (bind m (fun _ => k))
  (at level 61, right associativity).
Notation "x <- m ;; k" := (bind m (fun x => k))
  (at level 61, m at next level, right associativity).

(** [hits.push(h)] *)
Definition push (h : string) : M unit :=
  fun st => inr (tt, {| hits := hits st ++ [h]; opened := opened st |}).

(** [fs.readFileSync(file, "utf8")] *)
Definition readFileSync (file : string) (content : option string)
  : M string :=
  fun st =>
    match content with
    | Some text =>
        inr (text, {| hits := hits st; opened := opened st ++ [file] |})
    | None => inl (EACCES file)
    end.

(** [walk]: the body after the [existsSync] test.  Every entry a
    listing returns exists, so the recursive calls start here. *)
Fixpoint walkExisting (cb : string -> option string -> M unit)
         (dir : string) (n : node) {struct n} : M unit :=
  match n with
  | Dir (Some entries) =>
      (fix each (es : list (string * node)) : M unit :=
         match es with
         | [] => ret tt
         | (entryName, e) :: rest =>
             let full := Path.join dir entryName in
             if IGNORE_has entryName then each rest
             else match e with
                  | Dir _ => walkExisting cb full e ;; each rest
                  | File content => cb full content ;; each rest
                  | Other => each rest
                  end
         end) entries
  | Dir None => throw (EACCES dir)
  | File _ | Other => throw (ENOTDIR dir)
  end.

(** The [for] loop of [walk] over the entries of [dir]. *)
Fixpoint walkEntries (cb : string -> option string -> M unit)
         (dir : string) (es : list (string * node)) : M unit :=
  match es with
  | [] => ret tt
  | (entryName, e) :: rest =>
      let full := Path.join dir entryName in
      if IGNORE_has entryName then walkEntries cb dir rest
      else match e with
           | Dir _ => walkExisting cb full e ;; walkEntries cb dir rest
           | File content => cb full content ;; walkEntries cb dir rest
           | Other => walkEntries cb dir rest
           end
  end.

(** [walk(dir, cb)]; [None] is a path at which nothing exists. *)
Definition walk (cb : string -> option string -> M unit)
           (dir : string) (n : option node) : M unit :=
  match n with
  | None => ret tt
  | Some n => walkExisting cb dir n
  end.

Definition selfExcluded (rel : string) : bool :=
  JS.startsWith (JS.backslashesToSlashes rel)
                "scripts/guard-superbowl-strings".

Definition isText (file : string) : bool :=
  let ext := JS.toLowerCase (Path.extname file) in
  existsb (String.eqb ext) TEXT_EXTENSIONS || JS.isEmpty ext.

Definition badLine (line : string) : bool :=
  test JS.isWordChar BAD_PATTERN line.

Definition formatHit (rel : string) (i : nat) (line : string) : string :=
  rel ++ ":" ++ JS.numberToString (i + 1) ++ ":" ++ JS.trim line.

(** [lines.forEach((line, i) => ...)], from index [i] on. *)
Fixpoint forEachLine (rel : string) (i : nat) (lines : list string)
  : M unit :=
  match lines with
  | [] => ret tt
  | line :: rest =>
      (if badLine line then push (formatHit rel i line) else ret tt) ;;
      forEachLine rel (S i) rest
  end.

(** The callback handed to [walk].  [file] is kept relative to [ROOT]
    (see [Path.join]), so it serves as [rel] as well; [path.extname]
    reads the last component of a path only and gives the same on both. *)
Definition scanFile (file : string) (content : option string) : M unit :=
  let rel := file in
  if selfExcluded rel then ret tt
  else if negb (isText file) then ret tt
  else
    text <- readFileSync file content ;;
    let lines := JS.splitLF (JS.replaceCRLF text) in
    forEachLine rel 0 lines.

(** What a run leaves behind: either the process ends with a status
    after writing lines to its two channels, or an exception reaches
    the top level, upon which Node reports it and ends with status 1. *)
Inductive outcome :=
| Exited (status : Z) (stdout stderr : list string)
| Uncaught (e : fsError).

Definition exitStatus (o : outcome) : Z :=
  match o with
  | Exited status _ _ => status
  | Uncaught _ => 1%Z
  end.

(** The two banners; their leading glyph is kept as the bytes of the
    source file. *)
Definition FOUND_BANNER : string :=
  "❌ Found legacy Super Bowl strings. Replace with config + formatters:".

Definition CLEAN_BANNER : string :=
  "✅ No legacy Super Bowl strings found.".

Definition report (hits : list string) : outcome :=
  if (0 <? List.length hits)%nat
  then Exited 1 [] (FOUND_BANNER :: hits)
  else Exited 0 [CLEAN_BANNER] [].

(** The whole script, run on the tree found at [ROOT]. *)
Definition main (root : option node) : outcome :=
  match walk scanFile "" root initial with
  | inl e => Uncaught e
  | inr (_, st) => report (hits st)
  end.

End Guard.

(** ** scripts/guard-superbowl-strings.sh

    The shell guard delegates the search to ripgrep: [rg -n PATTERN .]
    in the working directory.  The script passes no file selection of
    its own, so the selection is ripgrep's: hidden entries are skipped,
    as are the paths excluded by the ignore files of the checkout and
    the files ripgrep takes for binary.  The latter two are the fields
    of [policy]. *)

Module Rg.

Import RegExp.

Record policy := {
  ignored : string -> bool;
  binary : string -> bool
}.

(** The word class of ripgrep's engine (Unicode aware) on the code
    points below 256: the ASCII word characters and the Latin-1
    letters. *)
Definition isWordChar (c : ascii) : bool :=
  let n := nat_of_ascii c in
  (JS.isWordChar c
   || (n =? 170) || (n =? 181) || (n =? 186)
   || ((192 <=? n) && (n <=? 255) && negb (n =? 215) && negb (n =? 247)))%nat.

Definition hidden (entryName : string) : bool := String.prefix "." entryName.

Fixpoint hasNul (text : string) : bool :=
  match text with
  | EmptyString => false
  | String c rest => (nat_of_ascii c =? 0)%nat || hasNul rest
  end.

(** The selection in a checkout without ignore files: nothing is
    excluded by path, and a file is binary when it holds a NUL. *)
Definition noIgnoreFiles : policy :=
  {| ignored := fun _ => false; binary := hasNul |}.

(** The lines of a file: a final line feed ends the last line and
    starts no further one. *)
Definition linesOf (text : string) : list string :=
  let ls := JS.splitLF text in
  match rev ls with
  | EmptyString :: front => rev front
  | _ => ls
  end.

(** [path:line:text] for every matching line, numbered from [i + 1]. *)
Fixpoint matchingLines (p : regex) (path : string) (i : nat)
         (lines : list string) : list string :=
  match lines with
  | [] => []
  | line :: rest =>
      List.app
        (if test isWordChar p line
         then [path ++ ":" ++ JS.numberToString (i + 1) ++ ":" ++ line]
         else [])
        (matchingLines p path (S i) rest)
  end.

(** The recursive search below the directory shown as [dir].  What
    cannot be listed or read yields no line on standard output. *)
Fixpoint search (pol : policy) (p : regex) (dir : string) (n : node)
  {struct n} : list string :=
  match n with
  | Dir (Some entries) =>
      (fix each (es : list (string * node)) : list string :=
         match es with
         | [] => []
         | (entryName, e) :: rest =>
             let path := dir ++ "/" ++ entryName in
             List.app
               (if hidden entryName || ignored pol path then []
                else match e with
                     | Dir _ => search pol p path e
                     | File (Some text) =>
                         if binary pol text then []
                         else matchingLines p path 0 (linesOf text)
                     | File None | Other => []
                     end)
               (each rest)
         end) entries
  | _ => []
  end.

End Rg.

Module GuardSh.

(** The pattern of the [rg] call: the same text as in the script
    guard. *)
Definition PATTERN : RegExp.regex := Guard.BAD_PATTERN.

(** The script, run with the tree [cwd] as working directory:
    [BAD=$(rg -n PATTERN . || true)], then the test [-n "$BAD"]. *)
Definition main (pol : Rg.policy) (cwd : node) : Guard.outcome :=
  let found := Rg.search pol PATTERN "." cwd in
  let BAD := String.concat (String JS.LF EmptyString) found in
  if negb (JS.isEmpty BAD)
  then Guard.Exited 1 (Guard.FOUND_BANNER :: found) []
  else Guard.Exited 0 [Guard.CLEAN_BANNER] [].

End GuardSh.

(** ** A checkout that holds the shell guard

    The text of [scripts/guard-superbowl-strings.sh], line by line, and
    the tree of a checkout in which it is the only file. *)

Module Checkout.

Definition QUOTE : string := String (ascii_of_nat 34) EmptyString.

Definition RG_LINE : string :=
  "BAD=$(rg -n " ++ QUOTE
    ++ "Kansas City Chiefs|San Francisco 49ers|\bChiefs\b|\b49ers\b|superbowlTeams"
    ++ QUOTE ++ " . || true)".

Definition SH_LINES : list string :=
  [ "#!/usr/bin/env bash";
    "set -euo pipefail";
    "";
    RG_LINE;
    "";
    "if [[ -n " ++ QUOTE ++ "$BAD" ++ QUOTE ++ " ]]; then";
    "  echo " ++ QUOTE ++ Guard.FOUND_BANNER ++ QUOTE;
    "  echo " ++ QUOTE ++ "$BAD" ++ QUOTE;
    "  exit 1";
    "fi";
    "";
    "echo " ++ QUOTE ++ Guard.CLEAN_BANNER ++ QUOTE ].

Definition SH_SOURCE : string :=
  String.concat (String JS.LF EmptyString) SH_LINES
    ++ String JS.LF EmptyString.

Definition tree : node :=
  Dir (Some
    [ ("scripts",
       Dir (Some [("guard-superbowl-strings.sh", File (Some SH_SOURCE))])) ]).

End Checkout.

(** ** Specification-side vocabulary *)

(** [spaced prev s]: every white-space unit of [s] is a space, and no
    space follows another one; [prev] tells that a space stands just
    before [s] (or that [s] must not begin with one). *)
Fixpoint spaced (prev : bool) (s : string) : bool :=
  match s with
  | EmptyString => true
  | String c s' =>
      if JS.isWhiteSpace c
      then (c =? " ")%char && negb prev && spaced true s'
      else spaced false s'
  end.

Fixpoint endsWithWhiteSpace (s : string) : bool :=
  match s with
  | EmptyString => false
  | String c EmptyString => JS.isWhiteSpace c
  | String _ s' => endsWithWhiteSpace s'
  end.

(** The units of [s] that are not white space, in order. *)
Fixpoint inkOf (s : string) : string :=
  match s with
  | EmptyString => EmptyString
  | String c s' => if JS.isWhiteSpace c then inkOf s' else String c (inkOf s')
  end.

(** An occurrence of the word [w] at index [i] of [line] that has no
    word character next to it on either side. *)
Definition wholeWordAt (w line : string) (i : nat) : bool :=
  RegExp.litAt w line i
  && negb (RegExp.wordBefore JS.isWordChar line i)
  && negb (RegExp.wordAt JS.isWordChar line (i + String.length w)).

(** An occurrence of [w] at [i] lies inside a longer word when a word
    character stands just before or just after it. *)
Definition insideLongerWord (w line : string) (i : nat) : bool :=
  RegExp.wordBefore JS.isWordChar line i
  || RegExp.wordAt JS.isWordChar line (i + String.length w).

(** What the pattern asks of a start position, alternative by
    alternative. *)
Definition denylistedAt (line : string) (i : nat) : bool :=
  RegExp.litAt "Kansas City Chiefs" line i
  || RegExp.litAt "San Francisco 49ers" line i
  || wholeWordAt "Chiefs" line i
  || wholeWordAt "49ers" line i
  || RegExp.litAt "superbowlTeams" line i.

(** The files a traversal from [dir] reaches, in order: those below no
    ignored name.  A directory that cannot be listed contributes none. *)
Fixpoint visitedFiles (dir : string) (n : node) {struct n}
  : list (string * option string) :=
  match n with
  | Dir (Some entries) =>
      flat_map
        (fun ne : string * node =>
           let (entryName, e) := ne in
           if Guard.IGNORE_has entryName then []
           else match e with
                | Dir _ => visitedFiles (Path.join dir entryName) e
                | File content => [(Path.join dir entryName, content)]
                | Other => []
                end)
        entries
  | _ => []
  end.

(** [listable n]: [n] is a directory and it, and every directory the
    traversal enters, can be listed. *)
Fixpoint listable (n : node) : bool :=
  match n with
  | Dir (Some entries) =>
      forallb
        (fun ne : string * node =>
           let (entryName, e) := ne in
           Guard.IGNORE_has entryName
           || match e with
              | Dir _ => listable e
              | File _ | Other => true
              end)
        entries
  | _ => false
  end.

(** The FileFilterPolicy on a visited file: outside the guard's own
    sources, and with an extension of the allowlist or none. *)
Definition qualifies (rel : string) : bool :=
  negb (Guard.selfExcluded rel) && Guard.isText rel.

Definition scannedFiles (dir : string) (n : node)
  : list (string * option string) :=
  filter (fun f => qualifies (fst f)) (visitedFiles dir n).

Definition hasContent (f : string * option string) : bool :=
  match snd f with Some _ => true | None => false end.

(** The lines of a text with their 0-based indices, from [i] on. *)
Fixpoint numbered (i : nat) (lines : list string) : list (nat * string) :=
  match lines with
  | [] => []
  | line :: rest => (i, line) :: numbered (S i) rest
  end.

(** One ScanHit per denylisted line of a file. *)
Definition hitsOfText (rel text : string) : list string :=
  map (fun il => Guard.formatHit rel (fst il) (snd il))
      (filter (fun il => Guard.badLine (snd il))
              (numbered 0 (JS.splitLF (JS.replaceCRLF text)))).

Definition hitsOfFile (f : string * option string) : list string :=
  match snd f with
  | Some text => hitsOfText (fst f) text
  | None => []
  end.

(** Every ScanHit of the tree: the hits of every scanned file, in
    traversal order. *)
Definition expectedHits (dir : string) (n : node) : list string :=
  flat_map hitsOfFile (scannedFiles dir n).

(** The same for the path handed to [walk], at which there may be
    nothing. *)
Definition allHits (root : option node) : list string :=
  match root with
  | Some n => expectedHits "" n
  | None => []
  end.

(** The tree without what the FileFilterPolicy excludes: the entries
    with an ignored name, and the files whose extension is neither
    allowlisted nor absent. *)
Fixpoint prune (dir : string) (n : node) {struct n} : node :=
  match n with
  | Dir (Some entries) =>
      Dir (Some
        (flat_map
           (fun ne : string * node =>
              let (entryName, e) := ne in
              if Guard.IGNORE_has entryName then []
              else match e with
                   | Dir _ => [(entryName, prune (Path.join dir entryName) e)]
                   | File _ =>
                       if Guard.isText (Path.join dir entryName)
                       then [ne] else []
                   | Other => [ne]
                   end)
           entries))
  | _ => n
  end.

(** [blank s]: every unit of [s] is white space (the empty string
    included). *)
Fixpoint blank (s : string) : bool :=
  match s with
  | EmptyString => true
  | String c s' => JS.isWhiteSpace c && blank s'
  end.

(** ** src/config/superbowl.ts: the league of a game id

    [gameIdToLeague] is the object imported from
    [config/gameIdToLeague.json]; the functions below take its own
    properties as a finite map given by its lookup.  A property read on
    a plain object also finds the members the object inherits from
    [Object.prototype], which are no strings. *)

Module League.

Inductive value :=
| Str (s : string)
| Inherited (member : string)
| Null.

(** The string-keyed properties of [Object.prototype]. *)
Definition OBJECT_PROTOTYPE : list string :=
  [ "constructor"; "__defineGetter__"; "__defineSetter__"; "hasOwnProperty";
    "__lookupGetter__"; "__lookupSetter__"; "isPrototypeOf";
    "propertyIsEnumerable"; "toString"; "valueOf"; "__proto__";
    "toLocaleString" ].

Section Lookup.

Variable gameIdToLeague : string -> option string.

(** [gameIdToLeague[gameId] ?? null] *)
Definition getLeagueFromGameId (gameId : string) : value :=
  match gameIdToLeague gameId with
  | Some league => Str league
  | None =>
      if existsb (String.eqb gameId) OBJECT_PROTOTYPE
      then Inherited gameId
      else Null
  end.

(** [getLeagueFromGameId(gameId) === "NFL"] *)
Definition isNFLGameId (gameId : string) : bool :=
  match getLeagueFromGameId gameId with
  | Str league => league =? "NFL"
  | Inherited _ | Null => false
  end.

End Lookup.

End League.

(** ** Further specification-side vocabulary *)

(** [cb] on each of [files] in turn, up to the first exception. *)
Fixpoint forEachFile (cb : string -> option string -> Guard.M unit)
         (files : list (string * option string)) : Guard.M unit :=
  match files with
  | [] => Guard.ret tt
  | f :: rest =>
      Guard.bind (cb (fst f) (snd f)) (fun _ => forEachFile cb rest)
  end.

(** A line in the sense of [split("\n")]: no line feed in it. *)
Fixpoint noLF (s : string) : bool :=
  match s with
  | EmptyString => true
  | String c s' => negb (c =? JS.LF)%char && noLF s'
  end.

Fixpoint endsWithCR (s : string) : bool :=
  match s with
  | EmptyString => false
  | String c EmptyString => (c =? JS.CR)%char
  | String _ s' => endsWithCR s'
  end.

Definition CRLF : string := String JS.CR (String JS.LF EmptyString).

Definition NEWLINE : string := String JS.LF EmptyString.

(** The beginning the self-exclusion looks for in a relative path. *)
Definition GUARD_PREFIX : string := "scripts/guard-superbowl-strings".

(** The state of the loop of [extname] once the units [us], which sit
    at the indices from [j] on, have been gone through. *)
Definition extRun (j : nat) (us : list ascii) : Path.extState :=
  fold_right (fun ic st => Path.extStep st ic) Path.extInit
             (combine (seq j (List.length us)) us).

(** The unit at index [m], the units [us] sitting at the indices from
    [j] on. *)
Definition unitAt (j : nat) (us : list ascii) (m : nat) : option ascii :=
  if (m <? j)%nat then None else nth_error us (m - j).

Definition plainUnit (u : option ascii) : Prop :=
  u <> Some "."%char /\ u <> Some "/"%char.

(** What the loop of [extname] keeps true: the extension under
    construction starts at a dot and holds no further dot and no
    separator. *)
Definition extInv (j : nat) (us : list ascii) (st : Path.extState) : Prop :=
  (forall sd, Path.startDot st = Some sd ->
     exists e, Path.endIx st = Some e /\ sd < e
               /\ unitAt j us sd = Some "."%char
               /\ forall m, sd < m -> m < e -> plainUnit (unitAt j us m))
  /\ (Path.startDot st = None -> Path.stopped st = false ->
      forall e, Path.endIx st = Some e ->
                forall m, j <= m -> m < e -> plainUnit (unitAt j us m))
  /\ (Path.matchedSlash st = true -> Path.endIx st = None)
  /\ (forall e, Path.endIx st = Some e -> j < e).

(** The loop state of [extname] with its indices moved up by [k]. *)
Definition extShift (k : nat) (st : Path.extState) : Path.extState :=
  {| Path.startDot := option_map (fun i => i + k) (Path.startDot st);
     Path.startPart := Path.startPart st;
     Path.endIx := option_map (fun i => i + k) (Path.endIx st);
     Path.matchedSlash := Path.matchedSlash st;
     Path.preDotState := Path.preDotState st;
     Path.stopped := Path.stopped st |}.

(** [noSlash s]: no separator occurs in [s], as in the name of a
    directory entry. *)
Fixpoint noSlash (s : string) : bool :=
  match s with
  | EmptyString => true
  | String c s' => negb (c =? "/")%char && noSlash s'
  end.

(** * Theorems *)

(** ** Normalisation *)

Section Normalisation.

Lemma space_isWhiteSpace : JS.isWhiteSpace " " = true.
Proof. reflexivity. Qed.

Lemma trimStart_fixed s :
  JS.trimStart (JS.trimStart s) = JS.trimStart s.
Proof.
  induction s as [|c s IH]; simpl; auto.
  destruct (JS.isWhiteSpace c) eqn:E; auto.
  simpl. now rewrite E.
Qed.

Lemma trimEnd_fixed s : JS.trimEnd (JS.trimEnd s) = JS.trimEnd s.
Proof.
  induction s as [|c s IH]; simpl; auto.
  destruct (JS.isWhiteSpace c) eqn:E; simpl.
  - destruct (JS.trimEnd s) eqn:T; simpl; auto.
    rewrite E. simpl in IH. rewrite IH. simpl.
    destruct (JS.isWhiteSpace a && JS.isEmpty (JS.trimEnd s0)); reflexivity.
  - rewrite E. simpl. now rewrite IH.
Qed.

(** Trimming the end never uncovers white space at the front. *)
Lemma trimStart_trimEnd s :
  JS.trimStart s = s -> JS.trimStart (JS.trimEnd s) = JS.trimEnd s.
Proof.
  destruct s as [|c s]; simpl; auto.
  destruct (JS.isWhiteSpace c) eqn:E; simpl.
  - intros H. exfalso.
    assert (L : String.length (JS.trimStart s) <= String.length s).
    { clear. induction s as [|d s IH]; simpl; auto.
      destruct (JS.isWhiteSpace d); simpl; lia. }
    rewrite H in L. simpl in L. lia.
  - intros _. now rewrite E.
Qed.

Lemma trim_fixed s : JS.trim (JS.trim s) = JS.trim s.
Proof.
  unfold JS.trim.
  rewrite (trimStart_trimEnd (JS.trimStart s)) by apply trimStart_fixed.
  apply trimEnd_fixed.
Qed.

Lemma spaced_weaken s : spaced true s = true -> spaced false s = true.
Proof.
  destruct s as [|c s]; simpl; auto.
  destruct (JS.isWhiteSpace c); auto.
  rewrite andb_false_r. discriminate.
Qed.

Lemma replaceWsRuns_spaced s : forall b, spaced b (JS.replaceWsRuns b s) = true.
Proof.
  induction s as [|c s IH]; intros b; simpl; auto.
  destruct (JS.isWhiteSpace c) eqn:E.
  - destruct b; auto.
    simpl. now rewrite IH.
  - simpl. now rewrite E.
Qed.

Lemma spaced_replaceWsRuns s :
  forall b, spaced b s = true -> JS.replaceWsRuns b s = s.
Proof.
  induction s as [|c s IH]; intros b; simpl; auto.
  destruct (JS.isWhiteSpace c) eqn:E.
  - intros H. apply andb_prop in H as [H H3]. apply andb_prop in H as [H1 H2].
    destruct b; [discriminate|].
    apply Ascii.eqb_eq in H1. subst c. now rewrite IH.
  - intros H. now rewrite IH.
Qed.

Lemma spaced_trimStart s : forall b, spaced b s = true -> spaced true (JS.trimStart s) = true.
Proof.
  induction s as [|c s IH]; intros b; simpl; auto.
  destruct (JS.isWhiteSpace c) eqn:E.
  - intros H. apply andb_prop in H as [_ H]. now apply IH with true.
  - intros H. simpl. now rewrite E.
Qed.

Lemma spaced_trimEnd s : forall b, spaced b s = true -> spaced b (JS.trimEnd s) = true.
Proof.
  induction s as [|c s IH]; intros b; simpl; auto.
  destruct (JS.isWhiteSpace c) eqn:E; simpl.
  - intros H. apply andb_prop in H as [H H3].
    destruct (JS.isEmpty (JS.trimEnd s)); simpl; auto.
    rewrite E, H. simpl. now apply IH.
  - intros H. rewrite E. now apply IH.
Qed.

Lemma trimEnd_no_trailing s : endsWithWhiteSpace (JS.trimEnd s) = false.
Proof.
  induction s as [|c s IH]; simpl; auto.
  destruct (JS.isWhiteSpace c) eqn:E; simpl.
  - destruct (JS.trimEnd s) eqn:T; simpl; auto.
  - destruct (JS.trimEnd s) eqn:T; simpl; auto.
Qed.

Lemma inkOf_trimStart s : inkOf (JS.trimStart s) = inkOf s.
Proof.
  induction s as [|c s IH]; simpl; auto.
  destruct (JS.isWhiteSpace c) eqn:E; auto.
  simpl. now rewrite E.
Qed.

Lemma inkOf_trimEnd s : inkOf (JS.trimEnd s) = inkOf s.
Proof.
  induction s as [|c s IH]; simpl; auto.
  destruct (JS.isWhiteSpace c) eqn:E; simpl.
  - destruct (JS.trimEnd s) eqn:T; simpl in *; auto.
    now rewrite E.
  - rewrite E. now rewrite IH.
Qed.

Lemma inkOf_replaceWsRuns s : forall b, inkOf (JS.replaceWsRuns b s) = inkOf s.
Proof.
  induction s as [|c s IH]; intros b; simpl; auto.
  destruct (JS.isWhiteSpace c) eqn:E.
  - destruct b; auto. simpl. auto.
  - simpl. rewrite E. now rewrite IH.
Qed.

Lemma normalizeTeamName_spaced x : spaced true (normalizeTeamName x) = true.
Proof.
  unfold normalizeTeamName, JS.trim.
  apply spaced_trimEnd, spaced_trimStart with false, replaceWsRuns_spaced.
Qed.

End Normalisation.

(** C9. [normalizeTeamName] is idempotent; it maps ["  A   B  "] to
    ["A B"]; in its result every white-space unit is a single space that
    neither follows another space nor stands at either end; and the units
    that are not white space are kept as they are, in order. *)
Theorem normalizeTeamName_idempotent :
  (forall x, normalizeTeamName (normalizeTeamName x) = normalizeTeamName x)
  /\ normalizeTeamName "  A   B  " = "A B"
  /\ (forall x, spaced true (normalizeTeamName x) = true
                /\ endsWithWhiteSpace (normalizeTeamName x) = false)
  /\ (forall x, inkOf (normalizeTeamName x) = inkOf x).
Proof.
  split; [|split; [reflexivity|split; [split|]]].
  - intros x. unfold normalizeTeamName at 1.
    rewrite spaced_replaceWsRuns
      by (apply spaced_weaken, normalizeTeamName_spaced).
    unfold normalizeTeamName. apply trim_fixed.
  - apply normalizeTeamName_spaced.
  - apply trimEnd_no_trailing.
  - intros x. unfold normalizeTeamName, JS.trim.
    now rewrite inkOf_trimEnd, inkOf_trimStart, inkOf_replaceWsRuns.
Qed.

(** C10. [sameTeamName] is reflexive, symmetric and transitive. *)
Theorem sameTeamName_equivalence :
  (forall a, sameTeamName a a = true)
  /\ (forall a b, sameTeamName a b = sameTeamName b a)
  /\ (forall a b c,
         sameTeamName a b = true -> sameTeamName b c = true ->
         sameTeamName a c = true).
Proof.
  unfold sameTeamName. split; [|split].
  - intros a. apply String.eqb_refl.
  - intros a b. apply String.eqb_sym.
  - intros a b c Hab Hbc.
    apply String.eqb_eq in Hab, Hbc. apply String.eqb_eq. congruence.
Qed.

Lemma sameTeamName_equivalence_witness :
  sameTeamName "Team X" "  team   x " = true
  /\ sameTeamName "  team   x " "TEAM X" = true
  /\ sameTeamName "Team X" "TEAM X" = true.
Proof.
  split; [reflexivity|split; [reflexivity|]].
  apply (proj2 (proj2 sameTeamName_equivalence)
           "Team X" "  team   x " "TEAM X"); reflexivity.
Defined.

(** ** The configuration predicate *)

(** C2, as the specification words it, fails: a candidate with a doubled
    inner space is the home team's name under [sameTeamName], yet
    [isSuperbowlTeamName] rejects it. *)
Lemma isSuperbowlTeamName_keeps_inner_space :
  sameTeamName "New  England Patriots"
               (name (home (teams SUPERBOWL))) = true
  /\ isSuperbowlTeamName "New  England Patriots" = false.
Proof. split; reflexivity. Qed.

(** C2, amended.  [isSuperbowlTeamName] trims the candidate and folds
    its case, leaving inner white space as it is, and answers [true]
    exactly when the result is the case-folded full name of the home or
    of the away team; every other candidate gets [false]. *)
Theorem isSuperbowlTeamName_spec :
  forall candidate,
    let t := JS.toLowerCase (JS.trim candidate) in
    (isSuperbowlTeamName candidate = true <->
       t = JS.toLowerCase (name (home (teams SUPERBOWL)))
       \/ t = JS.toLowerCase (name (away (teams SUPERBOWL))))
    /\ (isSuperbowlTeamName candidate = false <->
          t <> "new england patriots" /\ t <> "seattle seahawks").
Proof.
  intros candidate t.
  assert (E : isSuperbowlTeamName candidate =
              (("new england patriots" =? t) || (("seattle seahawks" =? t) || false))).
  { reflexivity. }
  rewrite E, orb_false_r. change (JS.toLowerCase (name (home (teams SUPERBOWL))))
    with "new england patriots".
  change (JS.toLowerCase (name (away (teams SUPERBOWL)))) with "seattle seahawks".
  split.
  - rewrite orb_true_iff, !String.eqb_eq. intuition congruence.
  - rewrite orb_false_iff, !String.eqb_neq. intuition congruence.
Qed.

(** ** The formatters *)

(** C7. Whatever the options, [formatSuperbowlMatchup] is the home
    team's designation, the separator, the away team's designation: the
    abbreviations when [useAbbreviations] is [true], the full names when
    it is [false] or absent; the separator is [" vs "] unless given. *)
Theorem formatSuperbowlMatchup_home_then_away :
  (forall opts : option Options,
      let given := match opts with Some o => o | None => noOptions end in
      let sep := match separator given with Some s => s | None => " vs " end in
      formatSuperbowlMatchup opts =
        match useAbbreviations given with
        | Some true =>
            abbreviation (home (teams SUPERBOWL)) ++ sep
              ++ abbreviation (away (teams SUPERBOWL))
        | Some false | None =>
            name (home (teams SUPERBOWL)) ++ sep
              ++ name (away (teams SUPERBOWL))
        end)
  /\ formatSuperbowlMatchup None = "New England Patriots vs Seattle Seahawks"
  /\ formatSuperbowlMatchup (Some noOptions)
     = "New England Patriots vs Seattle Seahawks"
  /\ formatSuperbowlMatchup
       (Some {| useAbbreviations := Some true; separator := None |})
     = "NE vs SEA"
  /\ formatSuperbowlMatchup
       (Some {| useAbbreviations := None; separator := Some " @ " |})
     = "New England Patriots @ Seattle Seahawks".
Proof.
  split; [|repeat split].
  intros [[[[|]|] [s|]]|]; reflexivity.
Qed.

(** C8. [formatSuperbowlTeamsLine] is the away team's full name,
    [" vs "], the home team's full name: the participants of
    [formatSuperbowlMatchup] with default options in reverse order, and
    for the active configuration the two renderings differ. *)
Theorem formatSuperbowlTeamsLine_away_then_home :
  formatSuperbowlTeamsLine
  = name (away (teams SUPERBOWL)) ++ " vs " ++ name (home (teams SUPERBOWL))
  /\ formatSuperbowlMatchup None
     = name (home (teams SUPERBOWL)) ++ " vs " ++ name (away (teams SUPERBOWL))
  /\ formatSuperbowlTeamsLine = "Seattle Seahawks vs New England Patriots"
  /\ formatSuperbowlTeamsLine <> formatSuperbowlMatchup None.
Proof.
  repeat split. discriminate.
Qed.

(** ** The denylist pattern *)

Section Denylist.

Lemma get_some_lt s : forall i c, String.get i s = Some c -> i < String.length s.
Proof.
  induction s as [|d s IH]; intros [|i] c; simpl; try discriminate; try lia.
  intros H. apply IH in H. lia.
Qed.

Lemma litAt_get w s i k :
  RegExp.litAt w s i = true -> k < String.length w ->
  String.get (i + k) s = String.get k w.
Proof.
  unfold RegExp.litAt. intros H Hk. apply String.eqb_eq in H.
  transitivity (String.get k (String.substring i (String.length w) s));
    [|now rewrite H].
  rewrite substring_correct1 by exact Hk.
  now rewrite Nat.add_comm.
Qed.

Lemma litAt_start w s i c w' :
  w = String c w' -> RegExp.litAt w s i = true -> i < String.length s.
Proof.
  intros -> H. apply get_some_lt with c.
  rewrite <- (Nat.add_0_r i). rewrite (litAt_get _ _ _ 0 H); simpl; auto; lia.
Qed.

(** Between word characters of its own, a literal is a whole word
    exactly when both boundary assertions around it hold. *)
Lemma boundaries_wholeWord w s i :
  RegExp.wordAt JS.isWordChar w 0 = true ->
  RegExp.wordBefore JS.isWordChar w (String.length w) = true ->
  RegExp.atBoundary JS.isWordChar s i
  && (RegExp.litAt w s i
      && RegExp.atBoundary JS.isWordChar s (i + String.length w))
  = wholeWordAt w s i.
Proof.
  intros Hfirst Hlast. unfold wholeWordAt.
  destruct (RegExp.litAt w s i) eqn:L;
    [|now rewrite andb_false_r].
  assert (Hlen : 0 < String.length w).
  { destruct w; simpl in *; [discriminate|lia]. }
  assert (W0 : RegExp.wordAt JS.isWordChar s i = true).
  { unfold RegExp.wordAt in *. rewrite <- (Nat.add_0_r i).
    now rewrite (litAt_get _ _ _ 0 L Hlen). }
  assert (W1 : RegExp.wordBefore JS.isWordChar s (i + String.length w) = true).
  { destruct (String.length w) as [|m] eqn:E; [lia|].
    rewrite Nat.add_succ_r. simpl in *. unfold RegExp.wordAt in *.
    rewrite (litAt_get _ _ _ m L) by lia. exact Hlast. }
  unfold RegExp.atBoundary. rewrite W0, W1. simpl.
  now rewrite xorb_true_r.
Qed.

Lemma matchesAt_denylisted line i :
  RegExp.matchesAt JS.isWordChar Guard.BAD_PATTERN line i
  = denylistedAt line i.
Proof.
  unfold denylistedAt.
  rewrite <- (boundaries_wholeWord "Chiefs" line i) by reflexivity.
  rewrite <- (boundaries_wholeWord "49ers" line i) by reflexivity.
  unfold RegExp.matchesAt, Guard.BAD_PATTERN. cbn [RegExp.matchAt String.length].
  destruct (RegExp.litAt "Kansas City Chiefs" line i); [reflexivity|].
  destruct (RegExp.litAt "San Francisco 49ers" line i); [reflexivity|].
  cbn [app orb].
  destruct (RegExp.atBoundary JS.isWordChar line i); cbn [flat_map app andb].
  - destruct (RegExp.litAt "Chiefs" line i); cbn [flat_map app andb].
    + destruct (RegExp.atBoundary JS.isWordChar line (i + 6)); cbn [flat_map app andb orb];
        [reflexivity|].
      destruct (RegExp.litAt "49ers" line i); cbn [flat_map app andb orb].
      * destruct (RegExp.atBoundary JS.isWordChar line (i + 5)); cbn [flat_map app andb orb];
          [reflexivity|].
        destruct (RegExp.litAt "superbowlTeams" line i); reflexivity.
      * destruct (RegExp.litAt "superbowlTeams" line i); reflexivity.
    + destruct (RegExp.litAt "49ers" line i); cbn [flat_map app andb orb].
      * destruct (RegExp.atBoundary JS.isWordChar line (i + 5)); cbn [flat_map app andb orb];
          [reflexivity|].
        destruct (RegExp.litAt "superbowlTeams" line i); reflexivity.
      * destruct (RegExp.litAt "superbowlTeams" line i); reflexivity.
  - destruct (RegExp.litAt "superbowlTeams" line i); reflexivity.
Qed.

Lemma denylistedAt_lt line i :
  denylistedAt line i = true -> i < String.length line.
Proof.
  unfold denylistedAt, wholeWordAt.
  rewrite !orb_true_iff, !andb_true_iff.
  intros [[[[H|H]|[[H _] _]]|[[H _] _]]|H];
    eapply litAt_start in H; eauto.
Qed.

Lemma badLine_iff line :
  Guard.badLine line = true <-> exists i, denylistedAt line i = true.
Proof.
  unfold Guard.badLine, RegExp.test. rewrite existsb_exists. split.
  - intros (i & _ & H). exists i. now rewrite <- matchesAt_denylisted.
  - intros (i & H). exists i. split.
    + apply in_seq. apply denylistedAt_lt in H. lia.
    + now rewrite matchesAt_denylisted.
Qed.

End Denylist.

(** ** The traversal *)

Section Traversal.

Import Guard.

Lemma state_eta st : {| hits := hits st; opened := opened st |} = st.
Proof. now destruct st. Qed.

Lemma walkExisting_dir cb dir es :
  walkExisting cb dir (Dir (Some es)) = walkEntries cb dir es.
Proof.
  induction es as [|[entryName e] rest IH]; [reflexivity|].
  simpl in *. now rewrite IH.
Qed.

Lemma walkEntries_app cb dir es1 es2 st :
  walkEntries cb dir (es1 ++ es2)%list st
  = match walkEntries cb dir es1 st with
    | inl e => inl e
    | inr (_, st') => walkEntries cb dir es2 st'
    end.
Proof.
  revert st. induction es1 as [|[entryName e] rest IH]; intros st;
    [reflexivity|].
  simpl. destruct (IGNORE_has entryName); [apply IH|].
  destruct e as [content|entries|]; unfold bind; try apply IH.
  - destruct (cb _ content st) as [err|[[] st']]; [reflexivity|apply IH].
  - destruct (walkExisting cb _ (Dir entries) st) as [err|[[] st']];
      [reflexivity|apply IH].
Qed.

Lemma walkEntries_ignored cb dir entryName e rest st :
  IGNORE_has entryName = true ->
  walkEntries cb dir ((entryName, e) :: rest) st = walkEntries cb dir rest st.
Proof. intros H. simpl. now rewrite H. Qed.

Lemma forEachLine_spec rel lines :
  forall i st,
    forEachLine rel i lines st
    = inr (tt, {| hits := hits st
                    ++ map (fun il => formatHit rel (fst il) (snd il))
                           (filter (fun il => badLine (snd il))
                                   (numbered i lines));
                  opened := opened st |}).
Proof.
  induction lines as [|line rest IH]; intros i st; simpl.
  - unfold ret. now rewrite app_nil_r, state_eta.
  - unfold bind. destruct (badLine line); simpl.
    + rewrite IH. simpl. now rewrite <- app_assoc.
    + now rewrite IH.
Qed.

Lemma scanFile_unqualified file content st :
  qualifies file = false -> scanFile file content st = inr (tt, st).
Proof.
  unfold qualifies, scanFile. destruct (selfExcluded file); [reflexivity|].
  simpl. now intros ->.
Qed.

Lemma scanFile_not_text file content st :
  isText file = false -> scanFile file content st = inr (tt, st).
Proof.
  intros H. apply scanFile_unqualified. unfold qualifies.
  now rewrite H, andb_false_r.
Qed.

Lemma scanFile_text file text st :
  qualifies file = true ->
  scanFile file (Some text) st
  = inr (tt, {| hits := hits st ++ hitsOfText file text;
                opened := opened st ++ [file] |}).
Proof.
  unfold qualifies, scanFile. destruct (selfExcluded file); [discriminate|].
  simpl. intros ->. simpl. unfold bind, readFileSync.
  now rewrite forEachLine_spec.
Qed.

Lemma scanFile_unreadable file st :
  qualifies file = true -> scanFile file None st = inl (EACCES file).
Proof.
  unfold qualifies, scanFile. destruct (selfExcluded file); [discriminate|].
  simpl. now intros ->.
Qed.

Local Arguments walkExisting : simpl never.
Local Arguments visitedFiles : simpl never.
Local Arguments listable : simpl never.
Local Arguments prune : simpl never.

Lemma walkEntries_cons cb dir entryName e rest st :
  walkEntries cb dir ((entryName, e) :: rest) st
  = if IGNORE_has entryName then walkEntries cb dir rest st
    else match e with
         | Dir _ =>
             match walkExisting cb (Path.join dir entryName) e st with
             | inl err => inl err
             | inr (_, st') => walkEntries cb dir rest st'
             end
         | File content =>
             match cb (Path.join dir entryName) content st with
             | inl err => inl err
             | inr (_, st') => walkEntries cb dir rest st'
             end
         | Other => walkEntries cb dir rest st
         end.
Proof.
  cbn [walkEntries]. destruct (IGNORE_has entryName); [reflexivity|].
  destruct e; reflexivity.
Qed.

Lemma visitedFiles_cons dir entryName e rest :
  visitedFiles dir (Dir (Some ((entryName, e) :: rest)))
  = ((if IGNORE_has entryName then []
      else match e with
           | Dir _ => visitedFiles (Path.join dir entryName) e
           | File content => [(Path.join dir entryName, content)]
           | Other => []
           end) ++ visitedFiles dir (Dir (Some rest)))%list.
Proof. reflexivity. Qed.

Lemma listable_cons entryName e rest :
  listable (Dir (Some ((entryName, e) :: rest)))
  = (IGNORE_has entryName
     || match e with Dir _ => listable e | File _ | Other => true end)
    && listable (Dir (Some rest)).
Proof. reflexivity. Qed.

Lemma scannedFiles_cons dir entryName e rest :
  scannedFiles dir (Dir (Some ((entryName, e) :: rest)))
  = ((if IGNORE_has entryName then []
      else match e with
           | Dir _ => scannedFiles (Path.join dir entryName) e
           | File content =>
               if qualifies (Path.join dir entryName)
               then [(Path.join dir entryName, content)] else []
           | Other => []
           end) ++ scannedFiles dir (Dir (Some rest)))%list.
Proof.
  unfold scannedFiles. rewrite visitedFiles_cons, filter_app.
  destruct (IGNORE_has entryName); [reflexivity|].
  destruct e; reflexivity.
Qed.

(** A run that meets no unreadable directory or file records the
    expected hits, and opens the scanned files only. *)
Lemma walkExisting_ok n :
  forall dir st,
    listable n = true ->
    forallb hasContent (scannedFiles dir n) = true ->
    walkExisting scanFile dir n st
    = inr (tt, {| hits := hits st ++ expectedHits dir n;
                  opened := opened st ++ map fst (scannedFiles dir n) |}).
Proof.
  induction n as [content| | |entries IH] using node_ind';
    intros dir st; try discriminate.
  rewrite walkExisting_dir. unfold expectedHits.
  revert st. induction IH as [|[entryName e] rest He _ IHrest]; intros st.
  - intros _ _. cbn. now rewrite !app_nil_r, state_eta.
  - rewrite listable_cons, scannedFiles_cons, walkEntries_cons.
    rewrite flat_map_app, map_app, forallb_app.
    intros L R. apply andb_prop in L as [L1 L2].
    apply andb_prop in R as [R1 R2].
    specialize (fun st => IHrest st L2 R2).
    destruct (IGNORE_has entryName).
    + rewrite IHrest. reflexivity.
    + cbn [orb] in L1. destruct e as [content|entries|].
      * destruct (qualifies (Path.join dir entryName)) eqn:Q.
        -- destruct content as [text|]; [|discriminate].
           rewrite scanFile_text by exact Q. rewrite IHrest.
           cbn. unfold hitsOfFile at 1. cbn.
           now rewrite app_nil_r, <- !app_assoc.
        -- rewrite scanFile_unqualified by exact Q. now rewrite IHrest.
      * cbn [snd] in He.
        rewrite (He (Path.join dir entryName) st L1 R1). rewrite IHrest.
        unfold expectedHits. cbn [hits opened].
        now rewrite <- !app_assoc.
      * now rewrite IHrest.
Qed.

(** Conversely, a run that ends without an exception met no
    unreadable directory or file. *)
Lemma walkExisting_complete n :
  forall dir st st',
    walkExisting scanFile dir n st = inr (tt, st') ->
    listable n = true
    /\ forallb hasContent (scannedFiles dir n) = true.
Proof.
  induction n as [content| | |entries IH] using node_ind';
    intros dir st st'; try discriminate.
  rewrite walkExisting_dir.
  revert st. induction IH as [|[entryName e] rest He _ IHrest]; intros st.
  - intros _. now split.
  - rewrite listable_cons, scannedFiles_cons, walkEntries_cons, forallb_app.
    destruct (IGNORE_has entryName).
    + intros H. apply IHrest in H as [L R]. now rewrite L, R.
    + cbn [orb]. destruct e as [content|entries|].
      * destruct (qualifies (Path.join dir entryName)) eqn:Q.
        -- destruct content as [text|].
           ++ rewrite scanFile_text by exact Q. intros H.
              apply IHrest in H as [L R]. now rewrite L, R.
           ++ rewrite scanFile_unreadable by exact Q. discriminate.
        -- rewrite scanFile_unqualified by exact Q. intros H.
           apply IHrest in H as [L R]. now rewrite L, R.
      * cbn [snd] in He.
        destruct (walkExisting scanFile (Path.join dir entryName)
                               (Dir entries) st) as [err|[[] st1]] eqn:W;
          [discriminate|].
        apply He in W as [L1 R1]. intros H.
        apply IHrest in H as [L R]. now rewrite L1, R1, L, R.
      * intros H. apply IHrest in H as [L R]. now rewrite L, R.
Qed.

Lemma prune_dir dir entries :
  exists entries', prune dir (Dir entries) = Dir entries'.
Proof. destruct entries; eexists; reflexivity. Qed.

Lemma prune_cons dir entryName e rest :
  exists rest',
    prune dir (Dir (Some rest)) = Dir (Some rest')
    /\ prune dir (Dir (Some ((entryName, e) :: rest)))
       = Dir (Some
           ((if IGNORE_has entryName then []
             else match e with
                  | Dir _ => [(entryName, prune (Path.join dir entryName) e)]
                  | File _ =>
                      if isText (Path.join dir entryName)
                      then [(entryName, e)] else []
                  | Other => [(entryName, e)]
                  end) ++ rest')%list).
Proof. eexists. split; reflexivity. Qed.

(** The traversal cannot tell a tree from its pruned form. *)
Lemma walkExisting_prune n :
  forall dir st,
    walkExisting scanFile dir (prune dir n) st
    = walkExisting scanFile dir n st.
Proof.
  induction n as [content| | |entries IH] using node_ind';
    intros dir st; try reflexivity.
  revert st. induction IH as [|[entryName e] rest He _ IHrest]; intros st;
    [reflexivity|].
  destruct (prune_cons dir entryName e rest) as (rest' & E1 & E2).
  rewrite E2. rewrite E1 in IHrest. rewrite !walkExisting_dir in *.
  rewrite walkEntries_app, walkEntries_cons.
  destruct (IGNORE_has entryName) eqn:I; [apply IHrest|].
  destruct e as [content|entries|].
  - destruct (isText (Path.join dir entryName)) eqn:T.
    + rewrite walkEntries_cons, I.
      destruct (scanFile _ content st) as [err|[[] st']]; [reflexivity|].
      apply IHrest.
    + rewrite scanFile_not_text by exact T. apply IHrest.
  - cbn [snd] in He. destruct (prune_dir (Path.join dir entryName) entries)
      as (entries' & E).
    rewrite walkEntries_cons, I, E, <- E, He.
    destruct (walkExisting scanFile _ (Dir entries) st) as [err|[[] st']];
      [reflexivity|].
    apply IHrest.
  - rewrite walkEntries_cons, I. apply IHrest.
Qed.

End Traversal.

(** ** The guard as a whole *)

Section GuardRun.

Import Guard.

Lemma path_join_root entryName : Path.join "" entryName = entryName.
Proof. reflexivity. Qed.

Lemma main_ok root :
  listable root = true ->
  forallb hasContent (scannedFiles "" root) = true ->
  walk scanFile "" (Some root) initial
  = inr (tt, {| hits := expectedHits "" root;
                opened := map fst (scannedFiles "" root) |})
  /\ main (Some root) = report (expectedHits "" root).
Proof.
  intros L R. unfold main. cbn [walk].
  rewrite (walkExisting_ok root "" initial L R). now split.
Qed.

Lemma numbered_app a : forall i b,
  numbered i (a ++ b)%list = (numbered i a ++ numbered (i + List.length a) b)%list.
Proof.
  induction a as [|x a IH]; intros i b; simpl.
  - now rewrite Nat.add_0_r.
  - rewrite IH. now rewrite Nat.add_succ_r.
Qed.

Lemma numbered_nth lines : forall i k line,
  nth_error lines k = Some line -> In (i + k, line) (numbered i lines).
Proof.
  induction lines as [|x lines IH]; intros i [|k] line; simpl;
    try discriminate.
  - intros [= ->]. left. now rewrite Nat.add_0_r.
  - intros H. right. rewrite Nat.add_succ_r. now apply (IH (S i)).
Qed.

Lemma no_bad_line lines : forall i,
  Forall (fun l => badLine l = false) lines ->
  filter (fun il => badLine (snd il)) (numbered i lines) = [].
Proof.
  induction lines as [|x lines IH]; intros i H; [reflexivity|].
  inversion H as [|? ? Hx Hr]; subst. simpl. rewrite Hx. now apply IH.
Qed.

(** A property checked at every index of a line holds wherever a
    non-empty literal occurs in it. *)
Lemma every_occurrence w c w' line (f : nat -> bool) :
  w = String c w' ->
  forallb (fun i => implb (RegExp.litAt w line i) (f i))
          (seq 0 (String.length line)) = true ->
  forall i, RegExp.litAt w line i = true -> f i = true.
Proof.
  intros E H i L. rewrite forallb_forall in H.
  specialize (H i). rewrite L in H. apply H.
  apply in_seq. apply (litAt_start _ _ _ _ _ E) in L. lia.
Qed.

Lemma no_occurrence w c w' line :
  w = String c w' ->
  forallb (fun i => negb (RegExp.litAt w line i))
          (seq 0 (String.length line)) = true ->
  forall i, RegExp.litAt w line i = false.
Proof.
  intros E H i. destruct (RegExp.litAt w line i) eqn:L; [|reflexivity].
  rewrite forallb_forall in H. specialize (H i). rewrite L in H.
  symmetry. apply H. apply in_seq. apply (litAt_start _ _ _ _ _ E) in L. lia.
Qed.

End GuardRun.

(** C3, as the specification words it, fails: in the line below the
    nickname occurs once, inside the longer word [Chiefsx], and the
    other nickname does not occur at all; the line is a hit all the same,
    by the alternative for the full legacy name, which asks for no word
    boundary. *)
Lemma full_name_matches_inside_longer_word :
  (forall i, RegExp.litAt "Chiefs" "Kansas City Chiefsx" i = true ->
             insideLongerWord "Chiefs" "Kansas City Chiefsx" i = true)
  /\ (forall i, RegExp.litAt "49ers" "Kansas City Chiefsx" i = false)
  /\ Guard.badLine "Kansas City Chiefsx" = true
  /\ Guard.main (Some (Dir (Some [("a.ts", File (Some "Kansas City Chiefsx"))])))
     = Guard.Exited 1 [] [Guard.FOUND_BANNER; "a.ts:1:Kansas City Chiefsx"].
Proof.
  split; [|split; [|split]].
  - apply every_occurrence with (c := "C"%char) (w' := "hiefs"); reflexivity.
  - apply no_occurrence with (c := "4"%char) (w' := "9ers"); reflexivity.
  - reflexivity.
  - reflexivity.
Qed.

(** C3, amended.  A line that holds none of the three literals matched
    without boundaries (the two full legacy names and the legacy symbol
    name), and in which every occurrence of a bare nickname lies inside a
    longer word, is not a hit and adds nothing to [hits].  A tree of one
    file that passes the filter, one line of which holds a bare nickname
    as a whole word while its other lines are clean, yields exactly one
    hit, for that file and that line, and exit status 1. *)
Theorem denylist_word_boundaries :
  (forall line,
      (forall i, RegExp.litAt "Kansas City Chiefs" line i = false
                 /\ RegExp.litAt "San Francisco 49ers" line i = false
                 /\ RegExp.litAt "superbowlTeams" line i = false) ->
      (forall i, RegExp.litAt "Chiefs" line i = true ->
                 insideLongerWord "Chiefs" line i = true) ->
      (forall i, RegExp.litAt "49ers" line i = true ->
                 insideLongerWord "49ers" line i = true) ->
      Guard.badLine line = false
      /\ forall rel i st, Guard.forEachLine rel i [line] st = inr (tt, st))
  /\ (forall fileName text before line after w i,
         Guard.IGNORE_has fileName = false ->
         qualifies fileName = true ->
         JS.splitLF (JS.replaceCRLF text) = (before ++ line :: after)%list ->
         Forall (fun l => Guard.badLine l = false) (before ++ after)%list ->
         w = "Chiefs" \/ w = "49ers" ->
         wholeWordAt w line i = true ->
         Guard.main (Some (Dir (Some [(fileName, File (Some text))])))
         = Guard.Exited 1 []
             [ Guard.FOUND_BANNER;
               fileName ++ ":" ++ JS.numberToString (List.length before + 1)
                        ++ ":" ++ JS.trim line ]).
Proof.
  split.
  - intros line Hlit Hc H4.
    assert (B : Guard.badLine line = false).
    { destruct (Guard.badLine line) eqn:B; [|reflexivity].
      apply badLine_iff in B as (i & D). exfalso.
      destruct (Hlit i) as (L1 & L2 & L3).
      unfold denylistedAt, wholeWordAt in D. rewrite L1, L2, L3 in D.
      rewrite orb_false_r in D. cbn [orb] in D.
      apply orb_prop in D as [D|D];
        apply andb_prop in D as [D N2]; apply andb_prop in D as [L N1].
      - apply Hc in L. unfold insideLongerWord in L.
        apply orb_prop in L as [L|L]; rewrite L in *; discriminate.
      - apply H4 in L. unfold insideLongerWord in L.
        apply orb_prop in L as [L|L]; rewrite L in *; discriminate. }
    split; [exact B|]. intros rel i st.
    rewrite forEachLine_spec. cbn [numbered filter snd]. rewrite B.
    cbn [map]. now rewrite app_nil_r, state_eta.
  - intros fileName text before line after w i Hign Hq Hlines Hclean Hw Hword.
    assert (B : Guard.badLine line = true).
    { apply badLine_iff. exists i. unfold denylistedAt.
      destruct Hw as [-> | ->]; rewrite Hword;
        now rewrite ?orb_true_r. }
    assert (S1 : scannedFiles "" (Dir (Some [(fileName, File (Some text))]))
                 = [(fileName, Some text)]).
    { rewrite scannedFiles_cons, Hign, path_join_root, Hq. reflexivity. }
    destruct (main_ok (Dir (Some [(fileName, File (Some text))]))) as [_ M].
    { rewrite listable_cons, Hign. reflexivity. }
    { now rewrite S1. }
    rewrite M. unfold expectedHits. rewrite S1. cbn [flat_map].
    unfold hitsOfFile. cbn [fst snd]. unfold hitsOfText.
    rewrite Hlines, numbered_app, filter_app. cbn [numbered filter snd].
    apply Forall_app in Hclean as [Hb Ha].
    rewrite B, !no_bad_line by assumption. reflexivity.
Qed.

Lemma denylist_word_boundaries_witness :
  (Guard.badLine "the xChiefs and the 49ersx" = false
   /\ forall rel i st,
       Guard.forEachLine rel i ["the xChiefs and the 49ersx"] st
       = inr (tt, st))
  /\ Guard.main
       (Some (Dir (Some [("notes.md",
                          File (Some ("intro" ++ String JS.LF "  go Chiefs!  "
                                              ++ String JS.LF "end")))])))
     = Guard.Exited 1 [] [Guard.FOUND_BANNER; "notes.md:2:go Chiefs!"].
Proof.
  split.
  - apply (proj1 denylist_word_boundaries "the xChiefs and the 49ersx").
    + intros i. repeat split.
      * apply no_occurrence with (c := "K"%char) (w' := "ansas City Chiefs");
          reflexivity.
      * apply no_occurrence with (c := "S"%char) (w' := "an Francisco 49ers");
          reflexivity.
      * apply no_occurrence with (c := "s"%char) (w' := "uperbowlTeams");
          reflexivity.
    + apply every_occurrence with (c := "C"%char) (w' := "hiefs"); reflexivity.
    + apply every_occurrence with (c := "4"%char) (w' := "9ers"); reflexivity.
  - apply (proj2 denylist_word_boundaries "notes.md"
             ("intro" ++ String JS.LF "  go Chiefs!  " ++ String JS.LF "end")
             ["intro"] "  go Chiefs!  " ["end"] "Chiefs" 5).
    + reflexivity.
    + reflexivity.
    + reflexivity.
    + repeat constructor.
    + now left.
    + reflexivity.
Defined.

(** C4.  A traversal that completes has recorded the hits of every
    scanned file of the whole tree before anything is reported: with no
    hit the run writes the success banner to standard output and ends
    with status 0; with at least one it writes the failure banner and
    then every hit to standard error and ends with status 1.  Every
    denylisted line of every scanned file is among them, as
    [path:line:text] with the path relative to the root, the line number
    counted from 1 and the text trimmed. *)
Theorem guard_reports_every_hit :
  forall root st,
    Guard.walk Guard.scanFile "" root Guard.initial = inr (tt, st) ->
    Guard.hits st = allHits root
    /\ Guard.main root
       = match allHits root with
         | [] => Guard.Exited 0 [Guard.CLEAN_BANNER] []
         | _ :: _ => Guard.Exited 1 [] (Guard.FOUND_BANNER :: allHits root)
         end
    /\ (forall n rel text i line,
           root = Some n ->
           In (rel, Some text) (scannedFiles "" n) ->
           nth_error (JS.splitLF (JS.replaceCRLF text)) i = Some line ->
           Guard.badLine line = true ->
           In (rel ++ ":" ++ JS.numberToString (i + 1) ++ ":" ++ JS.trim line)
              (allHits root)).
Proof.
  intros [root|] st W.
  - cbn [Guard.walk] in W. pose proof W as C.
    apply walkExisting_complete in C as [L R].
    destruct (main_ok root L R) as [W' M].
    cbn [Guard.walk] in W'. rewrite W in W'. injection W' as ->.
    cbn [Guard.hits allHits]. split; [reflexivity|]. split.
    + rewrite M. now destruct (expectedHits "" root).
    + intros n rel text i line [= <-] Hfile Hline Hbad.
      unfold expectedHits. apply in_flat_map.
      exists (rel, Some text). split; [exact Hfile|].
      unfold hitsOfFile, hitsOfText. cbn [fst snd].
      change (rel ++ ":" ++ JS.numberToString (i + 1) ++ ":" ++ JS.trim line)
        with ((fun il => Guard.formatHit rel (fst il) (snd il)) (i, line)).
      apply in_map. apply filter_In. split; [|exact Hbad].
      now apply (numbered_nth _ 0 i).
  - injection W as <-. split; [reflexivity|]. split; [reflexivity|].
    intros n rel text i line [=].
Qed.

Lemma guard_reports_every_hit_witness :
  Guard.main
    (Some (Dir (Some
       [ ("src", Dir (Some
            [ ("a.ts", File (Some ("  the Chiefs won  " ++ String JS.LF "49ers")));
              ("b.md", File (Some "fine")) ]));
         ("README", File (Some "superbowlTeams")) ])))
  = Guard.Exited 1 []
      [ Guard.FOUND_BANNER; "src/a.ts:1:the Chiefs won"; "src/a.ts:2:49ers";
        "README:1:superbowlTeams" ].
Proof.
  exact (proj1 (proj2 (guard_reports_every_hit
    (Some (Dir (Some
       [ ("src", Dir (Some
            [ ("a.ts", File (Some ("  the Chiefs won  " ++ String JS.LF "49ers")));
              ("b.md", File (Some "fine")) ]));
         ("README", File (Some "superbowlTeams")) ])))
    {| Guard.hits := [ "src/a.ts:1:the Chiefs won"; "src/a.ts:2:49ers";
                       "README:1:superbowlTeams" ];
       Guard.opened := [ "src/a.ts"; "src/b.md"; "README" ] |}
    eq_refl))).
Defined.

(** The traversal completes exactly on the trees whose visited
    directories can be listed and whose scanned files can be read. *)
Lemma traversal_completes_iff root :
  (exists st, Guard.walk Guard.scanFile "" (Some root) Guard.initial
              = inr (tt, st))
  <-> listable root = true
      /\ forallb hasContent (scannedFiles "" root) = true.
Proof.
  split.
  - intros (st & W). now apply walkExisting_complete in W.
  - intros (L & R). destruct (main_ok root L R) as [W _]. eauto.
Qed.

(** C5, as the specification words it, fails: a root directory that
    exists but cannot be listed passes the [existsSync] test, its listing
    throws, and nothing catches the exception. *)
Lemma unlistable_root_is_fatal :
  Guard.main (Some (Dir None)) = Guard.Uncaught (EACCES "")
  /\ Guard.exitStatus (Guard.main (Some (Dir None))) <> 0%Z.
Proof. split; [reflexivity|discriminate]. Qed.

(** C5, amended.  A missing root is nothing to scan: no hit, the success
    banner, status 0.  So is an existing tree whose visited directories
    can be listed and that holds no qualifying file; no file is opened
    then.  A root that exists but cannot be listed ends the run with an
    uncaught error. *)
Theorem nothing_to_scan_succeeds :
  (Guard.walk Guard.scanFile "" None Guard.initial = inr (tt, Guard.initial)
   /\ Guard.main None = Guard.Exited 0 [Guard.CLEAN_BANNER] [])
  /\ (forall root,
         listable root = true ->
         scannedFiles "" root = [] ->
         Guard.walk Guard.scanFile "" (Some root) Guard.initial
         = inr (tt, Guard.initial)
         /\ Guard.main (Some root) = Guard.Exited 0 [Guard.CLEAN_BANNER] [])
  /\ Guard.main (Some (Dir (Some []))) = Guard.Exited 0 [Guard.CLEAN_BANNER] []
  /\ Guard.main (Some (Dir None)) = Guard.Uncaught (EACCES "").
Proof.
  split; [split; reflexivity|]. split; [|split; reflexivity].
  intros root L E.
  destruct (main_ok root L) as [W M]; [now rewrite E|].
  unfold expectedHits in *. rewrite E in *. now split.
Qed.

Lemma nothing_to_scan_succeeds_witness :
  Guard.main
    (Some (Dir (Some
       [ ("node_modules", Dir None);
         ("assets", Dir (Some [("logo.png", File None)]));
         ("scripts", Dir (Some [("guard-superbowl-strings.js",
                                 File (Some "Kansas City Chiefs"))])) ])))
  = Guard.Exited 0 [Guard.CLEAN_BANNER] [].
Proof.
  exact (proj2 (proj1 (proj2 nothing_to_scan_succeeds)
    (Dir (Some
       [ ("node_modules", Dir None);
         ("assets", Dir (Some [("logo.png", File None)]));
         ("scripts", Dir (Some [("guard-superbowl-strings.js",
                                 File (Some "Kansas City Chiefs"))])) ]))
    eq_refl eq_refl)).
Defined.

(** C6.  An entry whose name is in the ignore set is passed over
    whatever it is and whatever it holds: the loop over a directory runs
    as if the entry were not there.  A file whose extension is neither
    allowlisted nor absent leaves the state as it is, with no hit
    recorded and no file opened, readable or not.  Hence a run on a tree
    and a run on the tree without its ignored entries and its files of
    other extensions end in the same state and the same outcome. *)
Theorem filter_policy_sound :
  (forall cb dir before entryName e after st,
      Guard.IGNORE_has entryName = true ->
      Guard.walkEntries cb dir (before ++ (entryName, e) :: after)%list st
      = Guard.walkEntries cb dir (before ++ after)%list st)
  /\ (forall file content st,
         Guard.isText file = false ->
         Guard.scanFile file content st = inr (tt, st))
  /\ (forall dir before entryName content after st,
         Guard.isText (Path.join dir entryName) = false ->
         Guard.walkEntries Guard.scanFile dir
           (before ++ (entryName, File content) :: after)%list st
         = Guard.walkEntries Guard.scanFile dir (before ++ after)%list st)
  /\ (forall root,
         Guard.walk Guard.scanFile "" (Some (prune "" root)) Guard.initial
         = Guard.walk Guard.scanFile "" (Some root) Guard.initial
         /\ Guard.main (Some (prune "" root)) = Guard.main (Some root)).
Proof.
  split; [|split; [|split]].
  - intros cb dir before entryName e after st H.
    rewrite !walkEntries_app.
    destruct (Guard.walkEntries cb dir before st) as [err|[[] st']];
      [reflexivity|].
    now apply walkEntries_ignored.
  - intros file content st H. now apply scanFile_not_text.
  - intros dir before entryName content after st H.
    rewrite !walkEntries_app.
    destruct (Guard.walkEntries Guard.scanFile dir before st) as [err|[[] st']];
      [reflexivity|].
    rewrite walkEntries_cons.
    destruct (Guard.IGNORE_has entryName); [reflexivity|].
    now rewrite scanFile_not_text.
  - intros root. unfold Guard.main, Guard.walk.
    now rewrite walkExisting_prune.
Qed.

Lemma filter_policy_sound_witness :
  Guard.walkEntries Guard.scanFile ""
    [ ("a.ts", File (Some "ok"));
      ("node_modules", Dir (Some [("x.js", File (Some "Kansas City Chiefs"))]));
      ("logo.png", File (Some "San Francisco 49ers")) ] Guard.initial
  = inr (tt, {| Guard.hits := []; Guard.opened := ["a.ts"] |}).
Proof.
  etransitivity.
  { exact (proj1 filter_policy_sound Guard.scanFile ""
             [("a.ts", File (Some "ok"))] "node_modules"
             (Dir (Some [("x.js", File (Some "Kansas City Chiefs"))]))
             [("logo.png", File (Some "San Francisco 49ers"))]
             Guard.initial eq_refl). }
  etransitivity.
  { exact (proj1 (proj2 (proj2 filter_policy_sound)) ""
             [("a.ts", File (Some "ok"))] "logo.png"
             (Some "San Francisco 49ers") [] Guard.initial eq_refl). }
  reflexivity.
Defined.

(** ** The two entry points *)

(** C1.  The two guards are meant to agree on every tree, and do not: in
    a checkout that holds the shell guard, the script guard leaves the
    guard sources out, finds nothing and ends with status 0, while the
    shell guard hands ripgrep no exclusion, so that ripgrep matches the
    line of the shell script that carries the pattern, and the script
    ends with status 1.  This holds for every selection policy of
    ripgrep that lets it search the script. *)
Theorem shell_guard_flags_its_own_source :
  forall pol,
    Rg.ignored pol "./scripts" = false ->
    Rg.ignored pol "./scripts/guard-superbowl-strings.sh" = false ->
    Rg.binary pol Checkout.SH_SOURCE = false ->
    Guard.main (Some Checkout.tree)
    = Guard.Exited 0 [Guard.CLEAN_BANNER] []
    /\ GuardSh.main pol Checkout.tree
       = Guard.Exited 1
           [ Guard.FOUND_BANNER;
             "./scripts/guard-superbowl-strings.sh:4:" ++ Checkout.RG_LINE ]
           []
    /\ Guard.exitStatus (Guard.main (Some Checkout.tree))
       <> Guard.exitStatus (GuardSh.main pol Checkout.tree).
Proof.
  intros pol H1 H2 H3.
  assert (J : Guard.main (Some Checkout.tree)
              = Guard.Exited 0 [Guard.CLEAN_BANNER] []) by reflexivity.
  assert (S : GuardSh.main pol Checkout.tree
              = Guard.Exited 1
                  [ Guard.FOUND_BANNER;
                    "./scripts/guard-superbowl-strings.sh:4:" ++ Checkout.RG_LINE ]
                  []).
  { unfold GuardSh.main, Checkout.tree. cbn [Rg.search].
    change ("." ++ "/" ++ "scripts") with "./scripts".
    change (Rg.hidden "scripts") with false. cbn [orb]. rewrite H1.
    change ("./scripts" ++ "/" ++ "guard-superbowl-strings.sh")
      with "./scripts/guard-superbowl-strings.sh".
    change (Rg.hidden "guard-superbowl-strings.sh") with false.
    cbn [orb]. rewrite H2, H3. reflexivity. }
  rewrite J, S. repeat split. discriminate.
Qed.

Lemma shell_guard_flags_its_own_source_witness :
  Guard.exitStatus (Guard.main (Some Checkout.tree)) = 0%Z
  /\ Guard.exitStatus (GuardSh.main Rg.noIgnoreFiles Checkout.tree) = 1%Z.
Proof.
  destruct (shell_guard_flags_its_own_source Rg.noIgnoreFiles
              eq_refl eq_refl eq_refl) as (J & S & _).
  rewrite J, S. split; reflexivity.
Defined.

(** The file selections differ as well: a name of the ignore set and an
    extension outside the allowlist hide a legacy string from the script
    guard and not from ripgrep. *)
Example guards_differ_on_filtered_files :
  Guard.main (Some (Dir (Some [ ("watchlist.json", File (Some "Chiefs"));
                                ("notes.txt", File (Some "49ers")) ])))
  = Guard.Exited 0 [Guard.CLEAN_BANNER] []
  /\ GuardSh.main Rg.noIgnoreFiles
       (Dir (Some [ ("watchlist.json", File (Some "Chiefs"));
                    ("notes.txt", File (Some "49ers")) ]))
     = Guard.Exited 1
         [ Guard.FOUND_BANNER; "./watchlist.json:1:Chiefs";
           "./notes.txt:1:49ers" ] [].
Proof. split; reflexivity. Qed.

(** * Further properties of the code *)

(** ** Normalisation, continued *)

Section NormalisationMore.

Lemma lowerUnit_isWhiteSpace c :
  JS.isWhiteSpace (JS.lowerUnit c) = JS.isWhiteSpace c.
Proof. destruct c as [[] [] [] [] [] [] [] []]; reflexivity. Qed.

Lemma lowerUnit_fixed c : JS.lowerUnit (JS.lowerUnit c) = JS.lowerUnit c.
Proof. destruct c as [[] [] [] [] [] [] [] []]; reflexivity. Qed.

Lemma toLowerCase_fixed s : JS.toLowerCase (JS.toLowerCase s) = JS.toLowerCase s.
Proof.
  induction s as [|c s IH]; simpl; [reflexivity|].
  now rewrite lowerUnit_fixed, IH.
Qed.

Lemma toLowerCase_isEmpty s : JS.isEmpty (JS.toLowerCase s) = JS.isEmpty s.
Proof. now destruct s. Qed.

Lemma toLowerCase_trimStart s :
  JS.toLowerCase (JS.trimStart s) = JS.trimStart (JS.toLowerCase s).
Proof.
  induction s as [|c s IH]; simpl; [reflexivity|].
  rewrite lowerUnit_isWhiteSpace. now destruct (JS.isWhiteSpace c).
Qed.

Lemma toLowerCase_trimEnd s :
  JS.toLowerCase (JS.trimEnd s) = JS.trimEnd (JS.toLowerCase s).
Proof.
  induction s as [|c s IH]; simpl; [reflexivity|].
  rewrite lowerUnit_isWhiteSpace, <- IH, toLowerCase_isEmpty.
  now destruct (JS.isWhiteSpace c && JS.isEmpty (JS.trimEnd s)).
Qed.

Lemma toLowerCase_trim s :
  JS.toLowerCase (JS.trim s) = JS.trim (JS.toLowerCase s).
Proof. unfold JS.trim. now rewrite toLowerCase_trimEnd, toLowerCase_trimStart. Qed.

Lemma toLowerCase_replaceWsRuns s : forall b,
  JS.toLowerCase (JS.replaceWsRuns b s) = JS.replaceWsRuns b (JS.toLowerCase s).
Proof.
  induction s as [|c s IH]; intros b; simpl; [reflexivity|].
  rewrite lowerUnit_isWhiteSpace.
  destruct (JS.isWhiteSpace c); [destruct b|]; simpl; now rewrite IH.
Qed.



(** Collapsing commutes with trimming at either end. *)
Lemma trimStart_replaceWsRuns s : forall b,
  JS.trimStart (JS.replaceWsRuns b s) = JS.replaceWsRuns false (JS.trimStart s).
Proof.
  induction s as [|c s IH]; intros b; simpl; [reflexivity|].
  destruct (JS.isWhiteSpace c) eqn:E.
  - destruct b; simpl; apply IH.
  - simpl. now rewrite E.
Qed.

Lemma trimEnd_isEmpty s : JS.isEmpty (JS.trimEnd s) = blank s.
Proof.
  induction s as [|c s IH]; simpl; [reflexivity|].
  rewrite IH. now destruct (JS.isWhiteSpace c), (blank s).
Qed.

Lemma replaceWsRuns_blank s : forall b, blank (JS.replaceWsRuns b s) = blank s.
Proof.
  induction s as [|c s IH]; intros b; simpl; [reflexivity|].
  destruct (JS.isWhiteSpace c) eqn:E.
  - destruct b; simpl; now rewrite IH.
  - simpl. now rewrite E.
Qed.

Lemma trimEnd_replaceWsRuns s : forall b,
  JS.trimEnd (JS.replaceWsRuns b s) = JS.replaceWsRuns b (JS.trimEnd s).
Proof.
  induction s as [|c s IH]; intros b; simpl; [reflexivity|].
  destruct (JS.isWhiteSpace c) eqn:E; simpl.
  - destruct b.
    + rewrite IH. destruct (JS.isEmpty (JS.trimEnd s)) eqn:T; simpl.
      * destruct (JS.trimEnd s); [reflexivity|discriminate].
      * now rewrite E.
    + simpl. rewrite IH.
      rewrite <- IH at 1. rewrite !trimEnd_isEmpty, replaceWsRuns_blank.
      destruct (blank s); simpl; [reflexivity|].
      now rewrite E.
  - rewrite ?E. simpl. rewrite ?E. now rewrite IH.
Qed.

Lemma normalizeTeamName_trim_first x :
  normalizeTeamName x = JS.replaceWsRuns false (JS.trim x).
Proof.
  unfold normalizeTeamName, JS.trim.
  now rewrite trimStart_replaceWsRuns, trimEnd_replaceWsRuns.
Qed.

Lemma trimStart_length s : String.length (JS.trimStart s) <= String.length s.
Proof.
  induction s as [|c s IH]; simpl; [lia|].
  destruct (JS.isWhiteSpace c); simpl; lia.
Qed.

Lemma trimEnd_length s : String.length (JS.trimEnd s) <= String.length s.
Proof.
  induction s as [|c s IH]; simpl; [lia|].
  destruct (JS.isWhiteSpace c && JS.isEmpty (JS.trimEnd s)); simpl; lia.
Qed.

Lemma replaceWsRuns_length s : forall b,
  String.length (JS.replaceWsRuns b s) <= String.length s.
Proof.
  induction s as [|c s IH]; intros b; simpl; [lia|].
  destruct (JS.isWhiteSpace c); [destruct b|]; simpl;
    match goal with |- context [JS.replaceWsRuns ?b s] => specialize (IH b) end;
    lia.
Qed.

Lemma trimStart_blank s : blank (JS.trimStart s) = blank s.
Proof.
  induction s as [|c s IH]; simpl; [reflexivity|].
  destruct (JS.isWhiteSpace c) eqn:E; simpl; [exact IH|now rewrite E].
Qed.

Lemma trimStart_id s :
  JS.trimStart s = s <->
  match s with EmptyString => True | String c _ => JS.isWhiteSpace c = false end.
Proof.
  destruct s as [|c s]; simpl; [tauto|].
  destruct (JS.isWhiteSpace c) eqn:E; split; auto; try discriminate.
  intros H. pose proof (trimStart_length s) as L. rewrite H in L.
  simpl in L. lia.
Qed.

Lemma trimEnd_id s : JS.trimEnd s = s <-> endsWithWhiteSpace s = false.
Proof.
  induction s as [|c s IH]; simpl; [tauto|].
  destruct s as [|d s].
  - simpl. destruct (JS.isWhiteSpace c); simpl; split; congruence.
  - rewrite <- IH. remember (String d s) as t.
    destruct (JS.isWhiteSpace c && JS.isEmpty (JS.trimEnd t)) eqn:B.
    + apply andb_prop in B as [_ B]. split; [discriminate|].
      intros H. rewrite H, Heqt in B. discriminate.
    + split; [now intros [= ->]|now intros ->].
Qed.

End NormalisationMore.

(** X1. Trimming first and collapsing afterwards gives the same as
    [normalizeTeamName], which collapses first; the result is never
    longer than the argument. *)
Theorem normalizeTeamName_trim_then_collapse :
  forall x,
    normalizeTeamName x = JS.replaceWsRuns false (JS.trim x)
    /\ String.length (normalizeTeamName x) <= String.length x.
Proof.
  intros x. split; [apply normalizeTeamName_trim_first|].
  unfold normalizeTeamName, JS.trim.
  pose proof (trimEnd_length (JS.trimStart (JS.replaceWsRuns false x))).
  pose proof (trimStart_length (JS.replaceWsRuns false x)).
  pose proof (replaceWsRuns_length x false). lia.
Qed.

(** X2. The strings [normalizeTeamName] leaves unchanged are exactly
    those whose white space consists of single spaces, none of them
    first, last or next to another one. *)
Theorem normalizeTeamName_fixed_points :
  forall x,
    normalizeTeamName x = x
    <-> spaced true x = true /\ endsWithWhiteSpace x = false.
Proof.
  intros x. split.
  - intros H. rewrite <- H. split.
    + apply normalizeTeamName_spaced.
    + apply trimEnd_no_trailing.
  - intros [S E]. unfold normalizeTeamName.
    rewrite spaced_replaceWsRuns by now apply spaced_weaken.
    unfold JS.trim.
    assert (T : JS.trimStart x = x).
    { apply trimStart_id. destruct x as [|c x]; [exact I|]. simpl in S.
      destruct (JS.isWhiteSpace c); [|reflexivity].
      now rewrite andb_false_r in S. }
    rewrite T. now apply trimEnd_id.
Qed.

(** X3. [normalizeTeamName] returns the empty string exactly on the
    strings that hold nothing but white space, the empty string among
    them. *)
Theorem normalizeTeamName_empty_iff_blank :
  forall x, normalizeTeamName x = "" <-> blank x = true.
Proof.
  intros x. unfold normalizeTeamName, JS.trim.
  rewrite <- (replaceWsRuns_blank x false), <- trimStart_blank, <- trimEnd_isEmpty.
  destruct (JS.trimEnd (JS.trimStart (JS.replaceWsRuns false x)));
    simpl; split; congruence.
Qed.


(** ** The configuration predicate, continued *)

Section ParticipantMore.

Lemma blank_trimStart p : blank p = true -> JS.trimStart p = "".
Proof.
  induction p as [|c p IH]; simpl; [reflexivity|].
  destruct (JS.isWhiteSpace c); [exact IH|discriminate].
Qed.

Lemma trimStart_after_blank pre x :
  blank pre = true -> JS.trimStart (pre ++ x) = JS.trimStart x.
Proof.
  induction pre as [|c pre IH]; simpl; [reflexivity|].
  destruct (JS.isWhiteSpace c); [exact IH|discriminate].
Qed.

Lemma trimEnd_before_blank x post :
  blank post = true -> JS.trimEnd (x ++ post) = JS.trimEnd x.
Proof.
  intros B. induction x as [|c x IH]; simpl.
  - pose proof (trimEnd_isEmpty post) as E. rewrite B in E.
    now destruct (JS.trimEnd post).
  - now rewrite IH.
Qed.

Lemma trim_padded pre x post :
  blank pre = true -> blank post = true ->
  JS.trim (pre ++ x ++ post) = JS.trim x.
Proof.
  intros Bpre Bpost. unfold JS.trim.
  rewrite trimStart_after_blank by exact Bpre.
  induction x as [|c x IH]; simpl.
  - now rewrite blank_trimStart.
  - destruct (JS.isWhiteSpace c) eqn:E; [exact IH|].
    change (String c (x ++ post)) with (String c x ++ post).
    now apply trimEnd_before_blank.
Qed.

Lemma team_names_trimmed n :
  In n SUPERBOWL_TEAM_NAMES -> JS.trim n = n.
Proof. intros [<-|[<-|[]]]; reflexivity. Qed.

End ParticipantMore.

(** X5. Whatever [isSuperbowlTeamName] accepts is, under
    [sameTeamName], the name of one of the two configured teams. *)
Theorem isSuperbowlTeamName_sameTeamName :
  forall candidate,
    isSuperbowlTeamName candidate = true ->
    exists n, In n SUPERBOWL_TEAM_NAMES /\ sameTeamName candidate n = true.
Proof.
  intros candidate H. unfold isSuperbowlTeamName in H.
  apply existsb_exists in H as (n & Hn & E). apply String.eqb_eq in E.
  exists n. split; [exact Hn|].
  unfold sameTeamName. apply String.eqb_eq.
  rewrite !normalizeTeamName_trim_first, !toLowerCase_replaceWsRuns.
  rewrite (team_names_trimmed n Hn). now rewrite E.
Qed.

Lemma isSuperbowlTeamName_sameTeamName_witness :
  exists n, In n SUPERBOWL_TEAM_NAMES
            /\ sameTeamName "  SEATTLE seahawks " n = true.
Proof.
  exact (isSuperbowlTeamName_sameTeamName "  SEATTLE seahawks " eq_refl).
Defined.

(** X6. On a candidate whose inner white space is single spaces
    already, [isSuperbowlTeamName] answers as [sameTeamName] does against
    the two configured names. *)
Theorem isSuperbowlTeamName_on_spaced_candidates :
  forall candidate,
    spaced false (JS.trim candidate) = true ->
    isSuperbowlTeamName candidate
    = existsb (sameTeamName candidate) SUPERBOWL_TEAM_NAMES.
Proof.
  intros candidate S.
  assert (N : normalizeTeamName candidate = JS.trim candidate).
  { rewrite normalizeTeamName_trim_first. now apply spaced_replaceWsRuns. }
  unfold isSuperbowlTeamName, sameTeamName. rewrite N.
  cbn [existsb SUPERBOWL_TEAM_NAMES].
  change (JS.toLowerCase (normalizeTeamName (name (home (teams SUPERBOWL)))))
    with (JS.toLowerCase (name (home (teams SUPERBOWL)))).
  change (JS.toLowerCase (normalizeTeamName (name (away (teams SUPERBOWL)))))
    with (JS.toLowerCase (name (away (teams SUPERBOWL)))).
  now rewrite !(String.eqb_sym (JS.toLowerCase (JS.trim candidate))).
Qed.

Lemma isSuperbowlTeamName_on_spaced_candidates_witness :
  isSuperbowlTeamName " seattle Seahawks"
  = existsb (sameTeamName " seattle Seahawks") SUPERBOWL_TEAM_NAMES.
Proof.
  exact (isSuperbowlTeamName_on_spaced_candidates " seattle Seahawks"
           eq_refl).
Defined.

(** X7. White space around the candidate and the case of its letters do
    not change the answer of [isSuperbowlTeamName]. *)
Theorem isSuperbowlTeamName_padding_and_case :
  forall pre candidate post,
    blank pre = true -> blank post = true ->
    isSuperbowlTeamName (pre ++ candidate ++ post)
    = isSuperbowlTeamName candidate
    /\ isSuperbowlTeamName (JS.toLowerCase candidate)
       = isSuperbowlTeamName candidate.
Proof.
  intros pre candidate post Bpre Bpost. unfold isSuperbowlTeamName. split.
  - now rewrite trim_padded.
  - now rewrite <- toLowerCase_trim, toLowerCase_fixed.
Qed.

Lemma isSuperbowlTeamName_padding_and_case_witness :
  isSuperbowlTeamName ("  " ++ "Seattle Seahawks" ++ " ")
  = isSuperbowlTeamName "Seattle Seahawks"
  /\ isSuperbowlTeamName (JS.toLowerCase "Seattle Seahawks")
     = isSuperbowlTeamName "Seattle Seahawks".
Proof.
  exact (isSuperbowlTeamName_padding_and_case "  " "Seattle Seahawks" " "
           eq_refl eq_refl).
Defined.

(** ** The formatters, continued *)

(** X8. No options make [formatSuperbowlMatchup] render what
    [formatSuperbowlTeamsLine] renders: whatever the separator and the
    choice of designations, the two differ. *)
Theorem formatSuperbowlMatchup_never_teams_line :
  forall opts, formatSuperbowlMatchup opts <> formatSuperbowlTeamsLine.
Proof.
  intros [[[[|]|] [s|]]|]; discriminate.
Qed.

(** ** The league of a game id *)

(** X9. [isNFLGameId] answers [true] exactly for the ids the table maps
    to ["NFL"]; an id the table does not hold is never an NFL game,
    although [getLeagueFromGameId] returns [null] for it only when it is
    not the name of a member of [Object.prototype]. *)
Theorem isNFLGameId_own_entries_only :
  forall (gameIdToLeague : string -> option string) gameId,
    (League.isNFLGameId gameIdToLeague gameId = true
     <-> gameIdToLeague gameId = Some "NFL")
    /\ (League.getLeagueFromGameId gameIdToLeague gameId = League.Null
        <-> gameIdToLeague gameId = None
            /\ ~ In gameId League.OBJECT_PROTOTYPE)
    /\ (gameIdToLeague gameId = None ->
        In gameId League.OBJECT_PROTOTYPE ->
        League.getLeagueFromGameId gameIdToLeague gameId
        = League.Inherited gameId
        /\ League.isNFLGameId gameIdToLeague gameId = false).
Proof.
  intros table gameId.
  unfold League.isNFLGameId, League.getLeagueFromGameId.
  assert (P : existsb (String.eqb gameId) League.OBJECT_PROTOTYPE = true
              <-> In gameId League.OBJECT_PROTOTYPE).
  { rewrite existsb_exists. split.
    - intros (x & Hx & E). apply String.eqb_eq in E. now subst.
    - intros H. exists gameId. split; [exact H|apply String.eqb_refl]. }
  destruct (table gameId) as [league|].
  - split; [|split].
    + rewrite String.eqb_eq. split; congruence.
    + split; [discriminate|now intros [? _]].
    + discriminate.
  - destruct (existsb (String.eqb gameId) League.OBJECT_PROTOTYPE) eqn:E.
    + split; [split; discriminate|]. split.
      * split; [discriminate|]. intros [_ N]. exfalso. now apply N, P.
      * now split.
    + split; [split; discriminate|]. split.
      * split; [|reflexivity]. intros _. split; [reflexivity|].
        intros H. apply P in H. discriminate.
      * intros _ H. apply P in H. discriminate.
Qed.

Lemma isNFLGameId_own_entries_only_witness :
  League.getLeagueFromGameId
    (fun id => if id =? "KXNFLGAME-26" then Some "NFL" else None) "toString"
  = League.Inherited "toString"
  /\ League.isNFLGameId
       (fun id => if id =? "KXNFLGAME-26" then Some "NFL" else None) "toString"
     = false.
Proof.
  apply (proj2 (proj2 (isNFLGameId_own_entries_only
           (fun id => if id =? "KXNFLGAME-26" then Some "NFL" else None)
           "toString"))).
  - reflexivity.
  - simpl. tauto.
Defined.

(** ** The guard, continued *)

Section LineEndings.

Lemma splitLF_line l rest :
  noLF l = true ->
  JS.splitLF (l ++ String JS.LF rest) = l :: JS.splitLF rest.
Proof.
  induction l as [|c l IH]; simpl; [reflexivity|].
  intros H. apply andb_prop in H as [C H].
  rewrite (IH H). apply negb_true_iff in C. now rewrite C.
Qed.

Lemma splitLF_last l : noLF l = true -> JS.splitLF l = [l].
Proof.
  induction l as [|c l IH]; simpl; [reflexivity|].
  intros H. apply andb_prop in H as [C H].
  rewrite (IH H). apply negb_true_iff in C. now rewrite C.
Qed.

Lemma splitLF_concat lines :
  lines <> [] -> forallb noLF lines = true ->
  JS.splitLF (String.concat NEWLINE lines) = lines.
Proof.
  induction lines as [|l [|l' rest] IH]; intros N H; [congruence| |].
  - simpl in *. rewrite andb_true_r in H. now apply splitLF_last.
  - cbn [forallb] in H. apply andb_prop in H as [H1 H2].
    cbn [String.concat]. unfold NEWLINE at 1. cbn [append].
    rewrite splitLF_line by exact H1. f_equal. apply IH; [discriminate|exact H2].
Qed.

Lemma replaceCRLF_line l : noLF l = true -> JS.replaceCRLF l = l.
Proof.
  induction l as [|c l IH]; [reflexivity|].
  intros H. cbn [noLF] in H. apply andb_prop in H as [_ H].
  destruct l as [|d l]; [reflexivity|].
  pose proof H as H'. cbn [noLF] in H'. apply andb_prop in H' as [D _].
  apply negb_true_iff in D.
  cbn [JS.replaceCRLF]. rewrite D, andb_false_r.
  f_equal. now apply IH.
Qed.

Lemma replaceCRLF_crlf l rest :
  noLF l = true ->
  JS.replaceCRLF (l ++ String JS.CR (String JS.LF rest))
  = l ++ String JS.LF (JS.replaceCRLF rest).
Proof.
  induction l as [|c l IH]; [reflexivity|].
  intros H. cbn [noLF] in H. apply andb_prop in H as [_ H].
  specialize (IH H).
  destruct l as [|d l].
  - cbn [append] in *. cbn [JS.replaceCRLF] in *.
    change (JS.CR =? JS.LF)%char with false. rewrite andb_false_r.
    now f_equal.
  - pose proof H as H'. cbn [noLF] in H'. apply andb_prop in H' as [D _].
    apply negb_true_iff in D.
    cbn [append] in *. cbn [JS.replaceCRLF]. rewrite D, andb_false_r.
    f_equal. exact IH.
Qed.

Lemma replaceCRLF_lf l rest :
  noLF l = true -> endsWithCR l = false ->
  JS.replaceCRLF (l ++ String JS.LF rest)
  = l ++ String JS.LF (JS.replaceCRLF rest).
Proof.
  induction l as [|c l IH].
  - intros _ _. cbn [append]. destruct rest as [|d rest]; [reflexivity|].
    cbn [JS.replaceCRLF]. change (JS.LF =? JS.CR)%char with false.
    reflexivity.
  - intros H E. cbn [noLF] in H. apply andb_prop in H as [_ H].
    destruct l as [|d l].
    + cbn [endsWithCR] in E. specialize (IH eq_refl eq_refl).
      cbn [append] in *. cbn [JS.replaceCRLF]. rewrite E.
      cbn [andb]. f_equal. exact IH.
    + pose proof H as H'. cbn [noLF] in H'. apply andb_prop in H' as [D _].
      apply negb_true_iff in D. specialize (IH H E).
      cbn [append] in *. cbn [JS.replaceCRLF]. rewrite D, andb_false_r.
      f_equal. exact IH.
Qed.

Lemma replaceCRLF_concat_crlf lines :
  forallb noLF lines = true ->
  JS.replaceCRLF (String.concat CRLF lines) = String.concat NEWLINE lines.
Proof.
  induction lines as [|l [|l' rest] IH]; intros H; [reflexivity| |].
  - simpl in *. rewrite andb_true_r in H. now apply replaceCRLF_line.
  - cbn [forallb] in H. apply andb_prop in H as [H1 H2].
    cbn [String.concat]. unfold CRLF at 1, NEWLINE at 1. cbn [append].
    rewrite replaceCRLF_crlf by exact H1. f_equal. f_equal. now apply IH.
Qed.

Lemma replaceCRLF_concat_lf lines :
  forallb noLF lines = true ->
  forallb (fun l => negb (endsWithCR l)) lines = true ->
  JS.replaceCRLF (String.concat NEWLINE lines) = String.concat NEWLINE lines.
Proof.
  induction lines as [|l [|l' rest] IH]; intros H E; [reflexivity| |].
  - simpl in *. rewrite andb_true_r in H. now apply replaceCRLF_line.
  - cbn [forallb] in H, E. apply andb_prop in H as [H1 H2].
    apply andb_prop in E as [E1 E2]. apply negb_true_iff in E1.
    change (String.concat NEWLINE (l :: l' :: rest))
      with (l ++ String JS.LF (String.concat NEWLINE (l' :: rest))).
    rewrite replaceCRLF_lf by assumption. f_equal. f_equal. now apply IH.
Qed.

End LineEndings.

(** X10. Line endings do not matter to the scan: of a text whose lines
    are joined by CR NEWLINE the guard sees exactly the lines, and it treats
    the file as it treats the same lines joined by NEWLINE. *)
Theorem scan_line_endings :
  forall lines,
    lines <> [] ->
    forallb noLF lines = true ->
    JS.splitLF (JS.replaceCRLF (String.concat CRLF lines)) = lines
    /\ (forallb (fun l => negb (endsWithCR l)) lines = true ->
        forall file st,
          Guard.scanFile file (Some (String.concat CRLF lines)) st
          = Guard.scanFile file (Some (String.concat NEWLINE lines)) st).
Proof.
  intros lines N H. split.
  - rewrite replaceCRLF_concat_crlf by exact H. now apply splitLF_concat.
  - intros E file st. unfold Guard.scanFile.
    destruct (Guard.selfExcluded file); [reflexivity|].
    destruct (negb (Guard.isText file)); [reflexivity|].
    unfold Guard.bind, Guard.readFileSync.
    rewrite replaceCRLF_concat_crlf by exact H.
    now rewrite replaceCRLF_concat_lf by assumption.
Qed.

Lemma scan_line_endings_witness :
  JS.splitLF (JS.replaceCRLF (String.concat CRLF ["go Chiefs"; ""; "end"]))
  = ["go Chiefs"; ""; "end"]
  /\ Guard.scanFile "a.ts" (Some (String.concat CRLF ["go Chiefs"; ""; "end"]))
       Guard.initial
     = Guard.scanFile "a.ts" (Some (String.concat NEWLINE ["go Chiefs"; ""; "end"]))
         Guard.initial.
Proof.
  destruct (scan_line_endings ["go Chiefs"; ""; "end"]) as [S F];
    [discriminate|reflexivity|].
  split; [exact S|]. now apply F.
Defined.

Section DenylistMore.

Lemma substring_length s : forall i n,
  String.length (String.substring i n s) <= String.length s - i.
Proof.
  induction s as [|c s IH]; intros [|i] [|n]; simpl; try lia.
  - specialize (IH 0 n). lia.
  - apply IH.
  - apply IH.
Qed.

Lemma litAt_fits w s i c w' :
  w = String c w' -> RegExp.litAt w s i = true ->
  i + String.length w <= String.length s.
Proof.
  intros E H. pose proof (litAt_start _ _ _ _ _ E H) as S.
  unfold RegExp.litAt in H. apply String.eqb_eq in H.
  pose proof (substring_length s i (String.length w)) as L.
  rewrite H in L. lia.
Qed.

Lemma substring_prefix w : forall post,
  String.substring 0 (String.length w) (w ++ post) = w.
Proof.
  induction w as [|c w IH]; intros post; simpl.
  - now destruct post.
  - now rewrite IH.
Qed.

Lemma litAt_in_context pre w post :
  RegExp.litAt w (pre ++ w ++ post) (String.length pre) = true.
Proof.
  unfold RegExp.litAt. apply String.eqb_eq.
  induction pre as [|c pre IH]; simpl; [apply substring_prefix|exact IH].
Qed.

End DenylistMore.

(** X11. A line shorter than five units, the empty line among them, is
    never a hit; a line in which one of the three literals matched
    without boundaries occurs is a hit whatever stands around the
    occurrence. *)
Theorem denylist_short_lines_and_literals :
  (forall line, String.length line < 5 -> Guard.badLine line = false)
  /\ (forall pre post,
         Guard.badLine (pre ++ "Kansas City Chiefs" ++ post) = true
         /\ Guard.badLine (pre ++ "San Francisco 49ers" ++ post) = true
         /\ Guard.badLine (pre ++ "superbowlTeams" ++ post) = true).
Proof.
  split.
  - intros line Hlen. destruct (Guard.badLine line) eqn:B; [|reflexivity].
    apply badLine_iff in B as (i & D). exfalso.
    unfold denylistedAt, wholeWordAt in D.
    rewrite !orb_true_iff, !andb_true_iff in D.
    destruct D as [[[[H|H]|[[H _] _]]|[[H _] _]]|H];
      eapply litAt_fits in H; try reflexivity; simpl in H; lia.
  - intros pre post. repeat split; apply badLine_iff;
      exists (String.length pre); unfold denylistedAt;
      rewrite litAt_in_context; now rewrite ?orb_true_r.
Qed.

Lemma denylist_short_lines_and_literals_witness :
  Guard.badLine "49er" = false.
Proof.
  apply (proj1 denylist_short_lines_and_literals "49er"). simpl. lia.
Defined.

Section TraversalMore.

Import Guard.

Local Arguments walkExisting : simpl never.
Local Arguments visitedFiles : simpl never.
Local Arguments listable : simpl never.

Lemma forEachFile_app cb files1 files2 st :
  forEachFile cb (files1 ++ files2)%list st
  = match forEachFile cb files1 st with
    | inl e => inl e
    | inr (_, st') => forEachFile cb files2 st'
    end.
Proof.
  revert st. induction files1 as [|f files1 IH]; intros st; [reflexivity|].
  cbn [forEachFile app]. unfold bind.
  destruct (cb (fst f) (snd f) st) as [e|[[] st']]; [reflexivity|apply IH].
Qed.

(** On a tree whose visited directories can all be listed, [walk] is
    the loop over the visited files. *)
Lemma walkExisting_forEachFile cb n :
  forall dir st,
    listable n = true ->
    walkExisting cb dir n st = forEachFile cb (visitedFiles dir n) st.
Proof.
  induction n as [content| | |entries IH] using node_ind';
    intros dir st; try discriminate.
  rewrite walkExisting_dir.
  revert st. induction IH as [|[entryName e] rest He _ IHrest]; intros st.
  - reflexivity.
  - rewrite listable_cons, visitedFiles_cons, walkEntries_cons, forEachFile_app.
    intros L. apply andb_prop in L as [L1 L2].
    specialize (fun st => IHrest st L2).
    destruct (IGNORE_has entryName); [apply IHrest|].
    cbn [orb] in L1. destruct e as [content|entries|].
    + cbn [forEachFile fst snd]. unfold bind.
      destruct (cb (Path.join dir entryName) content st) as [err|[[] st']];
        [reflexivity|]. cbn [ret]. apply IHrest.
    + cbn [snd] in He. rewrite (He (Path.join dir entryName) st L1).
      destruct (forEachFile cb _ st) as [err|[[] st']];
        [reflexivity|apply IHrest].
    + apply IHrest.
Qed.

(** Every visited path continues the path of the directory the
    traversal started from. *)
Lemma visitedFiles_below n :
  forall dir p content,
    In (p, content) (visitedFiles dir n) -> exists rest, p = dir ++ rest.
Proof.
  induction n as [content| | |entries IH] using node_ind';
    intros dir p c; try (intros []).
  induction IH as [|[entryName e] rest He _ IHrest]; [intros []|].
  rewrite visitedFiles_cons. intros H. apply in_app_or in H as [H|H];
    [|now apply IHrest].
  assert (J : exists r, Path.join dir entryName = dir ++ r).
  { unfold Path.join. destruct dir; simpl; eauto. }
  destruct J as (r & J).
  destruct (IGNORE_has entryName); [destruct H|].
  destruct e as [content|entries|].
  - destruct H as [[= <- _]|[]]. eauto.
  - cbn [snd] in He. apply He in H as (r' & ->). rewrite J.
    exists (r ++ r'). clear. induction dir; simpl; congruence.
  - destruct H.
Qed.

Lemma backslashesToSlashes_app a b :
  JS.backslashesToSlashes (a ++ b)
  = JS.backslashesToSlashes a ++ JS.backslashesToSlashes b.
Proof. induction a as [|c a IH]; simpl; [reflexivity|now rewrite IH]. Qed.

Lemma prefix_app p s : String.prefix p (p ++ s) = true.
Proof.
  induction p as [|c p IH]; simpl; [now destruct s|].
  destruct (ascii_dec c c); [exact IH|congruence].
Qed.

Lemma selfExcluded_below suffix :
  selfExcluded (GUARD_PREFIX ++ suffix) = true.
Proof.
  unfold selfExcluded, JS.startsWith.
  rewrite backslashesToSlashes_app.
  change (JS.backslashesToSlashes GUARD_PREFIX)
    with "scripts/guard-superbowl-strings".
  apply prefix_app.
Qed.

Lemma forEachFile_unchanged cb files st :
  (forall f, In f files -> forall st, cb (fst f) (snd f) st = inr (tt, st)) ->
  forEachFile cb files st = inr (tt, st).
Proof.
  induction files as [|f files IH]; intros H; [reflexivity|].
  cbn [forEachFile]. unfold bind. rewrite (H f) by now left.
  apply IH. intros g Hg. apply H. now right.
Qed.







End TraversalMore.

(** X12. On a tree whose visited directories can all be listed, [walk]
    hands the callback the regular files that lie below no ignored name,
    each once, depth first in listing order, and stops at the first
    exception the callback throws; directories and entries of other
    kinds are never handed over.  With a callback that records its
    argument, the record is the list of the visited paths. *)
Theorem walk_visits_files_in_order :
  forall root,
    listable root = true ->
    (forall cb dir st,
        Guard.walk cb dir (Some root) st
        = forEachFile cb (visitedFiles dir root) st)
    /\ (forall dir st,
           Guard.walk (fun file _ => Guard.push file) dir (Some root) st
           = inr (tt, {| Guard.hits :=
                           (Guard.hits st ++ map fst (visitedFiles dir root))%list;
                         Guard.opened := Guard.opened st |})).
Proof.
  intros root L. split.
  - intros cb dir st. now apply walkExisting_forEachFile.
  - intros dir st. cbn [Guard.walk].
    rewrite walkExisting_forEachFile by exact L.
    revert st. induction (visitedFiles dir root) as [|f files IH]; intros st.
    + cbn. now rewrite app_nil_r, state_eta.
    + cbn [forEachFile]. unfold Guard.bind, Guard.push. rewrite IH.
      cbn. now rewrite <- app_assoc.
Qed.

Lemma walk_visits_files_in_order_witness :
  Guard.walk (fun file _ => Guard.push file) ""
    (Some (Dir (Some
       [ ("src", Dir (Some [ ("b.ts", File None); ("a.ts", File (Some "x")) ]));
         (".git", Dir None);
         ("link", Other);
         ("README", File (Some "y")) ])))
    Guard.initial
  = inr (tt, {| Guard.hits := ["src/b.ts"; "src/a.ts"; "README"];
                Guard.opened := [] |}).
Proof.
  exact (proj2 (walk_visits_files_in_order
    (Dir (Some
       [ ("src", Dir (Some [ ("b.ts", File None); ("a.ts", File (Some "x")) ]));
         (".git", Dir None);
         ("link", Other);
         ("README", File (Some "y")) ]))
    eq_refl) "" Guard.initial).
Defined.




(** X15. The self-exclusion is a test on the beginning of the relative
    path: a file whose path begins with [scripts/guard-superbowl-strings]
    is left unopened whatever follows in its name, and so is every file
    below a directory whose path begins so. *)
Theorem guard_prefix_never_scanned :
  (forall suffix content st,
      Guard.scanFile (GUARD_PREFIX ++ suffix) content st = inr (tt, st))
  /\ (forall suffix n st,
         listable n = true ->
         Guard.walk Guard.scanFile (GUARD_PREFIX ++ suffix) (Some n) st
         = inr (tt, st)).
Proof.
  assert (F : forall suffix content st,
             Guard.scanFile (GUARD_PREFIX ++ suffix) content st = inr (tt, st)).
  { intros suffix content st. unfold Guard.scanFile.
    now rewrite selfExcluded_below. }
  split; [exact F|].
  intros suffix n st L. cbn [Guard.walk].
  rewrite walkExisting_forEachFile by exact L.
  apply forEachFile_unchanged. intros [p c] Hp st'. cbn [fst snd].
  apply visitedFiles_below in Hp as (rest & ->).
  replace ((GUARD_PREFIX ++ suffix) ++ rest)
    with (GUARD_PREFIX ++ (suffix ++ rest)); [apply F|].
  generalize GUARD_PREFIX. intros g.
  induction g as [|a g IH]; simpl; [reflexivity|now rewrite IH].
Qed.

Lemma guard_prefix_never_scanned_witness :
  Guard.walk Guard.scanFile (GUARD_PREFIX ++ "-fixtures")
    (Some (Dir (Some [("legacy.md", File (Some "Kansas City Chiefs"))])))
    Guard.initial
  = inr (tt, Guard.initial).
Proof.
  exact (proj2 guard_prefix_never_scanned "-fixtures"
           (Dir (Some [("legacy.md", File (Some "Kansas City Chiefs"))]))
           Guard.initial eq_refl).
Defined.

(** ** The extension of a path *)

Section Extname.

Lemma fold_left_rev {A B} (g : A -> B -> A) l a :
  fold_left g (rev l) a = fold_right (fun y x => g x y) a l.
Proof.
  rewrite <- (rev_involutive l) at 2.
  now rewrite (fold_left_rev_right (fun y x => g x y)).
Qed.

Lemma extname_extRun p :
  Path.extname p
  = let st := extRun 0 (list_ascii_of_string p) in
    match Path.startDot st, Path.endIx st with
    | Some sd, Some e =>
        if (Path.preDotState st =? 0)%Z
           || ((Path.preDotState st =? 1)%Z && (sd =? e - 1)%nat
               && (sd =? Path.startPart st + 1)%nat)
        then EmptyString
        else String.substring sd (e - sd) p
    | _, _ => EmptyString
    end.
Proof.
  unfold Path.extname, extRun. cbv zeta.
  now rewrite fold_left_rev.
Qed.

Lemma extRun_cons j c us :
  extRun j (c :: us) = Path.extStep (extRun (S j) us) (j, c).
Proof. reflexivity. Qed.

Lemma unitAt_here j c us : unitAt j (c :: us) j = Some c.
Proof. unfold unitAt. now rewrite Nat.ltb_irrefl, Nat.sub_diag. Qed.

Lemma unitAt_later j c us m :
  j < m -> unitAt j (c :: us) m = unitAt (S j) us m.
Proof.
  intros H. unfold unitAt.
  destruct (Nat.ltb_spec m j); [lia|]. destruct (Nat.ltb_spec m (S j)); [lia|].
  replace (m - j) with (S (m - S j)) by lia. reflexivity.
Qed.

Lemma unitAt_some j us m c : unitAt j us m = Some c -> j <= m.
Proof.
  unfold unitAt. destruct (Nat.ltb_spec m j); [discriminate|lia].
Qed.

Lemma plainUnit_later j c us m :
  j < m -> plainUnit (unitAt (S j) us m) -> plainUnit (unitAt j (c :: us) m).
Proof. intros H. now rewrite unitAt_later. Qed.

End Extname.

Section ExtnameInvariant.

Lemma extInv_init j : extInv j [] Path.extInit.
Proof.
  unfold extInv. cbn. repeat split; try discriminate; intros; discriminate.
Qed.

Lemma extInv_step j c us st :
  extInv (S j) us st -> extInv j (c :: us) (Path.extStep st (j, c)).
Proof.
  intros (Hdot & Hplain & Hslash & Hend).
  assert (Keep : forall sd, Path.startDot st = Some sd ->
            exists e, Path.endIx st = Some e /\ sd < e
                      /\ unitAt j (c :: us) sd = Some "."%char
                      /\ forall m, sd < m -> m < e ->
                                   plainUnit (unitAt j (c :: us) m)).
  { intros sd H. destruct (Hdot sd H) as (e & E & L & U & P).
    pose proof (unitAt_some _ _ _ _ U) as G.
    exists e. split; [exact E|]. split; [exact L|]. split.
    - now rewrite unitAt_later by lia.
    - intros m Hm He. rewrite unitAt_later by lia. now apply P. }
  assert (Bound : forall e, Path.endIx st = Some e -> j < e).
  { intros e H. apply Hend in H. lia. }
  destruct st as [sd0 sp e0 ms pd stp]. cbn in *.
  unfold Path.extStep. cbn.
  destruct stp.
  { (* the loop has been left *)
    unfold extInv. cbn. split; [|split; [|split]]; auto; discriminate. }
  destruct (Ascii.eqb_spec c "/") as [->|Nslash].
  { destruct ms; cbn; unfold extInv; cbn.
    - rewrite (Hslash eq_refl) in *.
      split; [|split; [|split]]; auto; try discriminate.
    - split; [|split; [|split]]; auto; discriminate. }
  destruct (Ascii.eqb_spec c ".") as [->|Ndot].
  - (* a dot *)
    destruct e0 as [e|], sd0 as [sd|]; cbn.
    + destruct (pd =? 1)%Z; cbn; unfold extInv; cbn;
        (split; [|split; [|split]]); auto; discriminate.
    + unfold extInv. cbn. split; [|split; [|split]]; auto; try discriminate.
      intros ? [= <-]. exists e. specialize (Bound e eq_refl).
      split; [reflexivity|]. split; [exact Bound|].
      split; [apply unitAt_here|].
      intros m Hm He. apply plainUnit_later; [lia|].
      apply (Hplain eq_refl eq_refl e eq_refl); lia.
    + destruct (Keep sd eq_refl) as (e & E & _). discriminate.
    + unfold extInv. cbn. split; [|split; [|split]]; try discriminate.
      * intros ? [= <-]. exists (j + 1).
        split; [reflexivity|]. split; [lia|].
        split; [apply unitAt_here|]. intros; lia.
      * intros ? [= <-]. lia.
  - (* any other unit *)
    destruct e0 as [e|], sd0 as [sd|]; cbn.
    + unfold extInv. cbn. split; [|split; [|split]]; auto; discriminate.
    + unfold extInv. cbn. split; [|split; [|split]]; auto; try discriminate.
      intros _ _ ? [= <-] m Hm He.
      destruct (Nat.eq_dec m j) as [->|N].
      * rewrite unitAt_here. split; congruence.
      * apply plainUnit_later; [lia|].
        apply (Hplain eq_refl eq_refl e eq_refl); lia.
    + destruct (Keep sd eq_refl) as (e & E & _). discriminate.
    + unfold extInv. cbn. split; [|split; [|split]]; try discriminate.
      * intros _ _ ? [= <-] m Hm He. assert (m = j) as -> by lia.
        rewrite unitAt_here. split; congruence.
      * intros ? [= <-]. lia.
Qed.

Lemma extRun_extInv us : forall j, extInv j us (extRun j us).
Proof.
  induction us as [|c us IH]; intros j; [apply extInv_init|].
  rewrite extRun_cons. apply extInv_step, IH.
Qed.

Lemma get_nth_error p : forall m,
  String.get m p = nth_error (list_ascii_of_string p) m.
Proof.
  induction p as [|c p IH]; intros [|m]; simpl; auto.
Qed.

Lemma unitAt_get p m : unitAt 0 (list_ascii_of_string p) m = String.get m p.
Proof.
  unfold unitAt. cbn. now rewrite Nat.sub_0_r, get_nth_error.
Qed.

(** A non-empty result of [extname] is the part of the path from a dot
    up to the end of the last component, with only plain units after
    the dot. *)
Lemma extname_shape p :
  Path.extname p = ""
  \/ exists sd e,
       sd < e
       /\ Path.extname p = String.substring sd (e - sd) p
       /\ String.get sd p = Some "."%char
       /\ forall m, sd < m -> m < e -> plainUnit (String.get m p).
Proof.
  rewrite extname_extRun. cbv zeta.
  destruct (extRun_extInv (list_ascii_of_string p) 0) as (Hdot & _).
  destruct (Path.startDot (extRun 0 (list_ascii_of_string p))) as [sd|];
    [|now left].
  destruct (Hdot sd eq_refl) as (e & -> & L & U & P).
  match goal with |- (if ?b then _ else _) = _ \/ _ => destruct b end;
    [now left|].
  right. exists sd, e. rewrite unitAt_get in U.
  split; [exact L|]. split; [reflexivity|]. split; [exact U|].
  intros m Hm He. rewrite <- unitAt_get. now apply P.
Qed.

Lemma get_toLowerCase s : forall k,
  String.get k (JS.toLowerCase s) = option_map JS.lowerUnit (String.get k s).
Proof.
  induction s as [|c s IH]; intros [|k]; simpl; auto.
Qed.

Lemma lowerUnit_dot c : JS.lowerUnit c = "."%char -> c = "."%char.
Proof.
  destruct c as [[] [] [] [] [] [] [] []]; vm_compute; intros H;
    (reflexivity || discriminate H).
Qed.

End ExtnameInvariant.

(** X16. An extension returned by [extname] is empty or begins with its
    only dot, and holds no separator.  So the allowlist entry
    [.env.example], which has two dots, matches no path at all: a file
    is text exactly when its extension is one of the other eight entries
    or absent. *)
Theorem extname_single_dot :
  forall p,
    (Path.extname p = "" \/ String.get 0 (Path.extname p) = Some "."%char)
    /\ (forall k, String.get k (Path.extname p) = Some "."%char -> k = 0)
    /\ (forall k, String.get k (Path.extname p) <> Some "/"%char)
    /\ JS.toLowerCase (Path.extname p) <> ".env.example"
    /\ Guard.isText p
       = existsb (String.eqb (JS.toLowerCase (Path.extname p)))
                 [ ".ts"; ".tsx"; ".js"; ".jsx"; ".json"; ".md"; ".py"; ".sh" ]
         || JS.isEmpty (JS.toLowerCase (Path.extname p)).
Proof.
  intros p.
  assert (One : forall k, String.get k (Path.extname p) = Some "."%char -> k = 0).
  { destruct (extname_shape p) as [->|(sd & e & L & -> & U & P)].
    - intros [|k]; discriminate.
    - intros k H. destruct (Nat.lt_ge_cases k (e - sd)) as [K|K].
      + rewrite substring_correct1 in H by exact K.
        destruct k as [|k]; [reflexivity|].
        destruct (P (S k + sd)) as [N _]; [lia|lia|]. now elim N.
      + rewrite substring_correct2 in H by exact K. discriminate. }
  assert (Dead : JS.toLowerCase (Path.extname p) <> ".env.example").
  { intros H. apply (f_equal (String.get 4)) in H.
    rewrite get_toLowerCase in H. cbn in H.
    destruct (String.get 4 (Path.extname p)) as [c|] eqn:G; [|discriminate].
    cbn in H. injection H as H. apply lowerUnit_dot in H. subst c.
    apply One in G. discriminate. }
  split; [|split; [exact One|split; [|split; [exact Dead|]]]].
  - destruct (extname_shape p) as [->|(sd & e & L & -> & U & P)]; [now left|].
    right. rewrite substring_correct1 by lia. exact U.
  - destruct (extname_shape p) as [->|(sd & e & L & -> & U & P)].
    + intros [|k]; discriminate.
    + intros k H. destruct (Nat.lt_ge_cases k (e - sd)) as [K|K].
      * rewrite substring_correct1 in H by exact K.
        destruct k as [|k]; [cbn in H; congruence|].
        destruct (P (S k + sd)) as [_ N]; [lia|lia|]. now elim N.
      * rewrite substring_correct2 in H by exact K. discriminate.
  - unfold Guard.isText, Guard.TEXT_EXTENSIONS. cbv zeta.
    apply String.eqb_neq in Dead. cbn [existsb].
    now rewrite Dead, !orb_false_r.
Qed.

Section ExtnameOfName.

Lemma extShift_extShift j st : extShift j (extShift 1 st) = extShift (S j) st.
Proof.
  destruct st as [[sd|] sp [e|] ms pd stp]; unfold extShift; cbn;
    f_equal; try reflexivity; apply f_equal; lia.
Qed.

Lemma extStep_extShift k st i c :
  c <> "/"%char ->
  Path.extStep (extShift k st) (i + k, c) = extShift k (Path.extStep st (i, c)).
Proof.
  intros N. apply Ascii.eqb_neq in N.
  destruct st as [[sd|] sp [e|] ms pd stp]; unfold Path.extStep, extShift;
    cbn; rewrite N; destruct stp; cbn; try reflexivity;
    destruct (c =? ".")%char; cbn; try destruct (pd =? 1)%Z; cbn;
    try reflexivity; f_equal; try reflexivity; apply f_equal; lia.
Qed.

Lemma extRun_extShift us :
  forallb (fun c => negb (c =? "/")%char) us = true ->
  forall j, extRun j us = extShift j (extRun 0 us).
Proof.
  induction us as [|c us IH]; intros H j.
  - reflexivity.
  - cbn [forallb] in H. apply andb_prop in H as [C H].
    apply negb_true_iff, Ascii.eqb_neq in C.
    rewrite !extRun_cons, (IH H (S j)), (IH H 1), <- extShift_extShift.
    now rewrite <- (extStep_extShift j _ 0 c C).
Qed.

(** Over an entry name the loop runs to its end. *)
Lemma extRun_name us :
  forallb (fun c => negb (c =? "/")%char) us = true ->
  forall j,
    Path.stopped (extRun j us) = false
    /\ Path.startPart (extRun j us) = 0
    /\ (us <> [] -> Path.matchedSlash (extRun j us) = false).
Proof.
  induction us as [|c us IH]; intros H j.
  - repeat split. congruence.
  - cbn [forallb] in H. apply andb_prop in H as [C H].
    apply negb_true_iff in C.
    destruct (IH H (S j)) as (S1 & S2 & S3).
    rewrite extRun_cons.
    assert (E : Path.endIx (extRun (S j) us) <> None ->
                Path.matchedSlash (extRun (S j) us) = false).
    { intros N. apply S3. intros ->. now apply N. }
    destruct (extRun (S j) us) as [sd sp e ms pd stp]. cbn in *. subst.
    unfold Path.extStep. cbn. rewrite C.
    destruct e as [e|]; cbn.
    + rewrite E by discriminate.
      destruct (c =? ".")%char, sd; cbn; try destruct (pd =? 1)%Z; cbn;
        repeat split; auto.
    + destruct (c =? ".")%char, sd; cbn; try destruct (pd =? 1)%Z; cbn;
        repeat split; auto.
Qed.

Lemma extRun_app_stopped a : forall j b,
  Path.stopped (extRun (j + List.length a) b) = true ->
  extRun j (a ++ b)%list = extRun (j + List.length a) b.
Proof.
  induction a as [|c a IH]; intros j b H; cbn [List.length app] in *.
  - now rewrite Nat.add_0_r in *.
  - rewrite extRun_cons.
    replace (j + S (List.length a)) with (S j + List.length a) in * by lia.
    rewrite (IH (S j) b H).
    unfold Path.extStep. now rewrite H.
Qed.

Lemma list_ascii_app a b :
  list_ascii_of_string (a ++ b)
  = (list_ascii_of_string a ++ list_ascii_of_string b)%list.
Proof. induction a as [|c a IH]; simpl; [reflexivity|now rewrite IH]. Qed.

Lemma list_ascii_length a :
  List.length (list_ascii_of_string a) = String.length a.
Proof. induction a as [|c a IH]; simpl; [reflexivity|now rewrite IH]. Qed.

Lemma noSlash_units s :
  noSlash s = forallb (fun c => negb (c =? "/")%char) (list_ascii_of_string s).
Proof. induction s as [|c s IH]; simpl; [reflexivity|now rewrite IH]. Qed.

Lemma substring_skip a : forall i n b,
  String.substring (String.length a + i) n (a ++ b) = String.substring i n b.
Proof. induction a as [|c a IH]; intros i n b; simpl; [reflexivity|apply IH]. Qed.

Lemma append_sep_assoc dir entryName :
  dir ++ String "/" entryName = (dir ++ "/") ++ entryName.
Proof. induction dir as [|c dir IH]; simpl; [reflexivity|now rewrite IH]. Qed.

Lemma append_sep_length dir : String.length (dir ++ "/") = S (String.length dir).
Proof. induction dir as [|c dir IH]; simpl; [reflexivity|now rewrite IH]. Qed.

End ExtnameOfName.

(** X17. The extension of a path is the extension of its last
    component: below any directory, whether a file counts as text
    depends on its entry name alone. *)
Theorem extname_of_entry_name :
  forall dir entryName,
    entryName <> "" ->
    noSlash entryName = true ->
    Path.extname (dir ++ "/" ++ entryName) = Path.extname entryName
    /\ Guard.isText (Path.join dir entryName) = Guard.isText entryName.
Proof.
  intros dir entryName Hne Hns.
  assert (E : Path.extname (dir ++ "/" ++ entryName) = Path.extname entryName).
  { rewrite !extname_extRun. cbv zeta.
    set (k := String.length dir).
    set (ln := list_ascii_of_string entryName).
    assert (Hln : forallb (fun c => negb (c =? "/")%char) ln = true)
      by (subst ln; now rewrite <- noSlash_units).
    assert (Hnil : ln <> []).
    { subst ln. destruct entryName; [congruence|discriminate]. }
    destruct (extRun_name ln Hln (S k)) as (S1 & S2 & S3).
    specialize (S3 Hnil).
    assert (R : extRun 0 (list_ascii_of_string (dir ++ "/" ++ entryName))
                = Path.extStep (extRun (S k) ln) (k, "/"%char)).
    { rewrite list_ascii_app. cbn [append list_ascii_of_string].
      rewrite extRun_app_stopped; rewrite list_ascii_length; cbn [Nat.add];
        fold k; fold ln; rewrite extRun_cons; [reflexivity|].
      unfold Path.extStep. rewrite S1, S3. reflexivity. }
    rewrite R. unfold Path.extStep. rewrite S1, S3. cbn.
    rewrite (extRun_extShift ln Hln (S k)).
    destruct (extRun_extInv ln 0) as (Hdot & _).
    destruct (extRun_name ln Hln 0) as (_ & P0 & _).
    destruct (extRun 0 ln) as [sd sp e ms pd stp]. cbn in *. subst sp.
    destruct sd as [sd|]; [|reflexivity].
    destruct (Hdot sd eq_refl) as (e' & -> & L & _). cbn.
    clear R Hdot.
    replace (sd + S k =? e' + S k - 1)%nat with (sd =? e' - 1)%nat
      by (destruct (Nat.eqb_spec sd (e' - 1)),
                   (Nat.eqb_spec (sd + S k) (e' + S k - 1));
          try reflexivity; lia).
    replace (sd + S k =? k + 1 + 1)%nat with (sd =? 1)%nat
      by (destruct (Nat.eqb_spec sd 1),
                   (Nat.eqb_spec (sd + S k) (k + 1 + 1));
          try reflexivity; lia).
    destruct ((pd =? 0)%Z || (pd =? 1)%Z && (sd =? e' - 1)%nat && (sd =? 1)%nat);
      [reflexivity|].
    replace (e' + S k - (sd + S k)) with (e' - sd) by lia.
    rewrite append_sep_assoc.
    replace (sd + S k) with (String.length (dir ++ "/") + sd)
      by (rewrite append_sep_length; subst k; lia).
    apply substring_skip. }
  split; [exact E|].
  unfold Guard.isText, Path.join. destruct dir; cbn [JS.isEmpty];
    [reflexivity|]. now rewrite E.
Qed.

Lemma extname_of_entry_name_witness :
  Path.extname ("src/my.utils" ++ "/" ++ "format.test.TS")
  = Path.extname "format.test.TS"
  /\ Guard.isText (Path.join "src/my.utils" "format.test.TS")
     = Guard.isText "format.test.TS".
Proof.
  apply extname_of_entry_name; [discriminate|reflexivity].
Defined.
